(** * ESP-CRSF: a shallow embedding of ESP_CRSF.c and ESP_CRSF.h

    The development follows the C source function by function.  Machine
    integers are mathematical integers ([Z]) with the conversions of C
    written out ([to_uint8], [to_uint16], ...); arrays are lists, updated
    and read by index; the globals of the receive path are the fields of
    one record that is passed explicitly; a function that writes to the
    UART threads the log of written packets.  An access outside an object,
    which C leaves undefined, is the result [None]. *)

From Stdlib Require Import ZArith Lia Bool.
From stdpp Require Import base list.

Local Open Scope Z_scope.

(** ** Machine integers *)

Definition to_uint8 (z : Z) : Z := z mod 256.
Definition to_uint16 (z : Z) : Z := z mod 65536.
Definition to_uint32 (z : Z) : Z := z mod 4294967296.

(** Conversion of an out-of-range value to a signed type, as GCC does it:
    reduction modulo [2^w] into the signed range. *)
Definition to_int16 (z : Z) : Z := (z + 32768) mod 65536 - 32768.
Definition to_int32 (z : Z) : Z := (z + 2147483648) mod 4294967296 - 2147483648.

Definition is_uint8 (z : Z) : Prop := 0 <= z < 256.

(** ** Checksum engine *)

Module CRC.

(** One pass of the inner loop of [generate_CRC]:
    [crc = (crc << 1) ^ ((crc & 0x80) ? poly : 0)], stored into a [uint8_t]. *)
Definition crc_shift (poly crc : Z) : Z :=
  to_uint8 (Z.lxor (Z.shiftl crc 1) (if Z.land crc 0x80 =? 0 then 0 else poly)).

(** [for (int shift = 0; shift < 8; ++shift)]: [n] counts the passes left. *)
Fixpoint crc_shift_loop (n : nat) (poly crc : Z) : Z :=
  match n with
  | O => crc
  | S n' => crc_shift_loop n' poly (crc_shift poly crc)
  end.

(** The body of the outer loop: [crc8_table[idx] = crc & 0xff]. *)
Definition generate_CRC_body (poly : Z) (crc8_table : list Z) (idx : Z) : list Z :=
  let crc := crc_shift_loop 8 poly (to_uint8 idx) in
  <[Z.to_nat idx := Z.land crc 0xff]> crc8_table.

(** [for (int idx = 0; idx < 256; ++idx)] over the global table. *)
Definition generate_CRC (poly : Z) (crc8_table : list Z) : list Z :=
  fold_left (generate_CRC_body poly) (Z.of_nat <$> seq 0 256) crc8_table.

(** [static uint8_t crc8_table[256] = {0};] *)
Definition crc8_table_init : list Z := replicate 256 0.

(** [while (len--) crc = crc8_table[crc ^ *data++];]  The buffer [data] is the
    object the pointer points into; reading past its end is undefined. *)
Fixpoint crc8_loop (crc8_table : list Z) (crc : Z) (data : list Z) (len : nat)
  {struct len} : option Z :=
  match len with
  | O => Some crc
  | S len' =>
      match data with
      | [] => None
      | b :: data' =>
          crc8_loop crc8_table (crc8_table !!! Z.to_nat (Z.lxor crc b)) data' len'
      end
  end.

(** [uint8_t crc8(const uint8_t *data, uint8_t len)]: the length argument
    is converted to [uint8_t] at the call. *)
Definition crc8 (crc8_table : list Z) (data : list Z) (len : Z) : option Z :=
  crc8_loop crc8_table 0 data (Z.to_nat (to_uint8 len)).

(** The table as [CRSF_init] leaves it: [generate_CRC(0xd5)]. *)
Definition crsf_table : list Z := Eval vm_compute in generate_CRC 0xd5 crc8_table_init.

(** *** The checksum as the specification words it

    A round is "shift left by one, then XOR with the polynomial if the
    top bit was set before the shift"; a table entry is eight rounds; the
    reference CRC8 works bit by bit, without a table. *)
Definition spec_round (poly c : Z) : Z :=
  let shifted := (2 * c) mod 256 in
  if Z.testbit c 7 then Z.lxor shifted poly else shifted.

Definition spec_table_entry (poly v : Z) : Z := Nat.iter 8 (spec_round poly) v.

Definition spec_fold (table : Z -> Z) (bytes : list Z) : Z :=
  fold_left (fun crc b => table (Z.lxor crc b)) bytes 0.

Definition reference_crc8 (poly : Z) (bytes : list Z) : Z :=
  fold_left (fun crc b => Nat.iter 8 (spec_round poly) (Z.lxor crc b)) bytes 0.

End CRC.

(** ** The UART transmit side

    [uart_write_bytes] is the only effect of the send functions: they are
    computations over the log of packets handed to the driver, and fail
    ([None]) where the C code would read or write outside an object. *)

Definition uart_log : Type := list (list Z).

Definition io (A : Type) : Type := uart_log -> option (A * uart_log).

Definition io_ret {A} (a : A) : io A := fun log => Some (a, log).

Definition io_bind {A B} (m : io A) (k : A -> io B) : io B :=
  fun log => match m log with
             | None => None
             | Some (a, log') => k a log'
             end.

Definition io_undefined {A} : io A := fun _ => None.

Notation "'let*' x ':=' m 'in' k" := (io_bind m (fun x => k))
  (at level 10, x pattern, m at level 100, k at level 200).

(** [uart_write_bytes(uart_num, src, size)] *)
Definition uart_write_bytes (src : list Z) (size : Z) : io unit :=
  fun log => Some (tt, log ++ [take (Z.to_nat size) src]).

(** ** Declarations of ESP_CRSF.h *)

Inductive crsf_type_t : Set :=
| CRSF_TYPE_CHANNELS
| CRSF_TYPE_BATTERY
| CRSF_TYPE_GPS
| CRSF_TYPE_ALTITUDE
| CRSF_TYPE_ATTITUDE
| CRSF_TYPE_RPM
| CRSF_TYPE_TEMP
| CRSF_TYPE_LINK_STATISTICS.

Definition crsf_type_code (t : crsf_type_t) : Z :=
  match t with
  | CRSF_TYPE_CHANNELS => 0x16
  | CRSF_TYPE_BATTERY => 0x08
  | CRSF_TYPE_GPS => 0x02
  | CRSF_TYPE_ALTITUDE => 0x09
  | CRSF_TYPE_ATTITUDE => 0x1E
  | CRSF_TYPE_RPM => 0x0C
  | CRSF_TYPE_TEMP => 0x0D
  | CRSF_TYPE_LINK_STATISTICS => 0x14
  end.

Inductive crsf_dest_t : Set :=
| CRSF_DEST_FC
| CRSF_DEST_RADIO.

Definition crsf_dest_code (d : crsf_dest_t) : Z :=
  match d with
  | CRSF_DEST_FC => 0xC8
  | CRSF_DEST_RADIO => 0xEA
  end.

(** The structs are [packed]; the target (ESP32, GCC) is little-endian and
    allocates bit-fields from the least significant bit, so a field of [n]
    bytes occupies [n] consecutive bytes, least significant first. *)
Fixpoint le_bytes (n : nat) (z : Z) : list Z :=
  match n with
  | O => []
  | S n' => z mod 256 :: le_bytes n' (z / 256)
  end.

Record crsf_battery_t : Set := mk_battery {
  voltage : Z;    (* unsigned : 16 *)
  current : Z;    (* unsigned : 16 *)
  capacity : Z;   (* unsigned : 24 *)
  remaining : Z   (* unsigned : 8 *)
}.

Definition battery_bytes (b : crsf_battery_t) : list Z :=
  le_bytes 2 (voltage b) ++ le_bytes 2 (current b) ++
  le_bytes 3 (capacity b) ++ le_bytes 1 (remaining b).

Record crsf_gps_t : Set := mk_gps {
  latitude : Z;     (* int32_t *)
  longitude : Z;    (* int32_t *)
  groundspeed : Z;  (* uint16_t *)
  heading : Z;      (* uint16_t *)
  altitude : Z;     (* uint16_t *)
  satellites : Z    (* uint8_t *)
}.

Definition gps_bytes (g : crsf_gps_t) : list Z :=
  le_bytes 4 (latitude g) ++ le_bytes 4 (longitude g) ++
  le_bytes 2 (groundspeed g) ++ le_bytes 2 (heading g) ++
  le_bytes 2 (altitude g) ++ le_bytes 1 (satellites g).

Record int24_t : Set := mk_int24 { byte0 : Z; byte1 : Z; byte2 : Z }.

Definition int24_bytes (v : int24_t) : list Z := [byte0 v; byte1 v; byte2 v].

(** [int24_to_int32]: the [|=] with [0xFF000000] is done on [unsigned] and
    the result converted back to [int32_t]. *)
Definition int24_to_int32 (val : int24_t) : Z :=
  let result :=
    Z.lor (Z.lor (Z.shiftl (byte2 val) 16) (Z.shiftl (byte1 val) 8)) (byte0 val) in
  if Z.land result 0x800000 =? 0 then result
  else to_int32 (Z.lor (to_uint32 result) 0xFF000000).

Definition int32_to_int24 (val : Z) : int24_t :=
  {| byte0 := to_uint8 (Z.land val 0xFF);
     byte1 := to_uint8 (Z.land (Z.shiftr val 8) 0xFF);
     byte2 := to_uint8 (Z.land (Z.shiftr val 16) 0xFF) |}.

(** The object a [crsf_temp_t *] points to: the source id followed by the
    entries of the flexible array member that the caller allocated. *)
Record crsf_temp_t : Set := mk_temp {
  temp_source_id : Z;      (* uint8_t *)
  temp_value : list Z      (* int16_t [] *)
}.

Definition temp_bytes (t : crsf_temp_t) : list Z :=
  le_bytes 1 (temp_source_id t) ++ (temp_value t ≫= le_bytes 2).

Record crsf_rpm_t : Set := mk_rpm {
  rpm_source_id : Z;          (* uint8_t *)
  rpm_value : list int24_t    (* int24_t [] *)
}.

Definition rpm_bytes (r : crsf_rpm_t) : list Z :=
  le_bytes 1 (rpm_source_id r) ++ (rpm_value r ≫= int24_bytes).

(** byteswap.h *)
Definition __bswap16 (x : Z) : Z :=
  let x := to_uint16 x in
  Z.lor (Z.shiftl (Z.land x 0xff) 8) (Z.land (Z.shiftr x 8) 0xff).

Definition __bswap32 (x : Z) : Z :=
  let x := to_uint32 x in
  Z.lor (Z.lor (Z.shiftl (Z.land x 0xff) 24) (Z.shiftl (Z.land (Z.shiftr x 8) 0xff) 16))
        (Z.lor (Z.shiftl (Z.land (Z.shiftr x 16) 0xff) 8) (Z.land (Z.shiftr x 24) 0xff)).

(** ** Frame encoder and the send functions *)

(** [memcpy(&dst[off], src, n)]; the caller checks the bounds. *)
Definition memcpy (dst : list Z) (off : nat) (src : list Z) (n : nat) : list Z :=
  take off dst ++ take n src ++ drop (off + n) dst.

Section Send.

(** The global [crc8_table], as it is when a send function runs. *)
Variable crc8_table : list Z.

(** [payload] is the object behind the [const void *]; [payload_length]
    arrives converted to [uint8_t].  The array [packet] is uninitialised in
    C; every byte of it is written before it is read or sent. *)
Definition CRSF_send_payload (payload : list Z) (destination : crsf_dest_t)
    (type : crsf_type_t) (payload_length : Z) : io unit :=
  let payload_length := to_uint8 payload_length in
  let packet := replicate (Z.to_nat (payload_length + 4)) 0 in
  let packet := <[0%nat := to_uint8 (crsf_dest_code destination)]> packet in
  let packet := <[1%nat := to_uint8 (payload_length + 2)]> packet in
  let packet := <[2%nat := to_uint8 (crsf_type_code type)]> packet in
  if (Z.of_nat (length payload) <? payload_length) then io_undefined
  else
    let packet := memcpy packet 3 payload (Z.to_nat payload_length) in
    match CRC.crc8 crc8_table (drop 2 packet) (payload_length + 1) with
    | None => io_undefined
    | Some checksum =>
        let packet := <[Z.to_nat (payload_length + 3) := checksum]> packet in
        uart_write_bytes packet (payload_length + 4)
    end.

(** The battery, GPS and temperature functions work through the caller's
    pointer: the struct after the call is part of the result. *)
Definition CRSF_send_battery_data (dest : crsf_dest_t) (payload : crsf_battery_t)
  : io crsf_battery_t :=
  let payload_proc := payload in
  let payload_proc :=
    {| voltage := __bswap16 (voltage payload_proc);
       current := current payload_proc;
       capacity := capacity payload_proc;
       remaining := remaining payload_proc |} in
  let payload_proc :=
    {| voltage := voltage payload_proc;
       current := __bswap16 (current payload_proc);
       capacity := capacity payload_proc;
       remaining := remaining payload_proc |} in
  let payload_proc :=
    {| voltage := voltage payload_proc;
       current := current payload_proc;
       capacity := (Z.shiftl (__bswap16 (capacity payload_proc)) 8) mod 2 ^ 24;
       remaining := remaining payload_proc |} in
  let* _ := CRSF_send_payload (battery_bytes payload_proc) dest CRSF_TYPE_BATTERY 8 in
  io_ret payload_proc.

Definition CRSF_send_gps_data (dest : crsf_dest_t) (payload : crsf_gps_t)
  : io crsf_gps_t :=
  let payload_proc :=
    {| latitude := to_int32 (__bswap32 (latitude payload));
       longitude := to_int32 (__bswap32 (longitude payload));
       groundspeed := __bswap16 (groundspeed payload);
       heading := __bswap16 (heading payload);
       altitude := __bswap16 (altitude payload);
       satellites := satellites payload |} in
  let* _ := CRSF_send_payload (gps_bytes payload_proc) dest CRSF_TYPE_GPS 15 in
  io_ret payload_proc.

(** [bswap24]: swap only the lower 24 bits of a [uint32_t]. *)
Definition bswap24 (value : Z) : Z :=
  let value := to_uint32 value in
  Z.lor (Z.lor (Z.shiftl (Z.land value 0x0000FF) 16) (Z.land value 0x00FF00))
        (Z.shiftr (Z.land value 0xFF0000) 16).

(** [for (size_t i = 0; i < num_values; i++)
       rpm_packet->rpm_value[i] = int32_to_int24(bswap24(rpm_values[i]));]
    with [n] iterations left; [rpm_values] is the caller's array.  The
    [uint32_t] that [bswap24] returns is below [2^24], so it is the same
    number as an [int32_t]. *)
Fixpoint rpm_convert_loop (n : nat) (i : nat) (rpm_values : list Z)
    (out : list int24_t) : option (list int24_t) :=
  match n with
  | O => Some out
  | S n' =>
      match rpm_values !! i with
      | None => None
      | Some v =>
          rpm_convert_loop n' (S i) rpm_values
            (<[i := int32_to_int24 (bswap24 v)]> out)
      end
  end.

(** [malloc_ok] says whether [malloc] returned a buffer; the fresh buffer
    is modelled zero-filled, every entry sent is written first. *)
Definition CRSF_send_rpm_values (malloc_ok : bool) (dest : crsf_dest_t)
    (source_id : Z) (rpm_values : list Z) (num_values : Z) : io unit :=
  let num_values := if 19 <? num_values then 19 else num_values in
  let packet_size := 1 + num_values * 3 in
  if negb malloc_ok then io_ret tt
  else
    let blank := replicate (Z.to_nat num_values) (mk_int24 0 0 0) in
    match rpm_convert_loop (Z.to_nat num_values) 0 rpm_values blank with
    | None => io_undefined
    | Some values =>
        let rpm_packet := {| rpm_source_id := to_uint8 source_id; rpm_value := values |} in
        CRSF_send_payload (rpm_bytes rpm_packet) dest CRSF_TYPE_RPM packet_size
    end.

(** [for (size_t i = 0; i < num_temps; i++)
       payload->temp_value[i] = __bswap16(payload->temp_value[i]);] *)
Fixpoint temp_swap_loop (n : nat) (i : nat) (temp_value : list Z) : option (list Z) :=
  match n with
  | O => Some temp_value
  | S n' =>
      match temp_value !! i with
      | None => None
      | Some v => temp_swap_loop n' (S i) (<[i := to_int16 (__bswap16 v)]> temp_value)
      end
  end.

Definition CRSF_send_temp_data (dest : crsf_dest_t) (payload : crsf_temp_t)
    (num_temps : Z) : io crsf_temp_t :=
  let payload_size := to_uint32 (1 + to_uint32 (num_temps * 2)) in
  match temp_swap_loop (Z.to_nat num_temps) 0 (temp_value payload) with
  | None => io_undefined
  | Some swapped =>
      let payload := {| temp_source_id := temp_source_id payload; temp_value := swapped |} in
      let* _ := CRSF_send_payload (temp_bytes payload) dest CRSF_TYPE_TEMP payload_size in
      io_ret payload
  end.

End Send.

(** ** The receive side: shared state, failsafe timer, [rx_task] *)

(** [crsf_channels_t]: sixteen 11-bit fields [ch1] .. [ch16], in order. *)
Definition crsf_channels_t : Set := list Z.

Record crsf_link_statistics_t : Set := mk_link_statistics {
  up_rssi_ant1 : Z;
  up_rssi_ant2 : Z;
  up_link_quality : Z;
  up_snr : Z;             (* int8_t *)
  active_antenna : Z;
  rf_profile : Z;
  up_rf_power : Z;
  down_rssi : Z;
  down_link_quality : Z;
  down_snr : Z            (* int8_t *)
}.

Definition to_int8 (z : Z) : Z := (z + 128) mod 256 - 128.

Fixpoint le_combine (bs : list Z) : Z :=
  match bs with
  | [] => 0
  | b :: bs' => b + 256 * le_combine bs'
  end.

(** The value of a [crsf_channels_t] whose 22 bytes are [bs]: field [k]
    is bits [11k .. 11k+10] of the bytes read least significant first. *)
Definition channels_of_bytes (bs : list Z) : crsf_channels_t :=
  (fun k => Z.land (Z.shiftr (le_combine bs) (11 * Z.of_nat k)) 0x7FF) <$> seq 0 16.

Definition link_statistics_of_bytes (bs : list Z) : crsf_link_statistics_t :=
  {| up_rssi_ant1 := bs !!! 0%nat;
     up_rssi_ant2 := bs !!! 1%nat;
     up_link_quality := bs !!! 2%nat;
     up_snr := to_int8 (bs !!! 3%nat);
     active_antenna := bs !!! 4%nat;
     rf_profile := bs !!! 5%nat;
     up_rf_power := bs !!! 6%nat;
     down_rssi := bs !!! 7%nat;
     down_link_quality := bs !!! 8%nat;
     down_snr := to_int8 (bs !!! 9%nat) |}.

(** [*(T * )payload] for a [T] of [size] bytes: the read is defined when
    the array [payload] has that many bytes. *)
Definition read_object (payload : list Z) (size : nat) : option (list Z) :=
  if (length payload <? size)%nat then None else Some (take size payload).

(** A FreeRTOS one-shot software timer, as far as this file uses it: it is
    dormant, or active with a time left before its callback runs. *)
Inductive timer_t : Set :=
| Dormant
| Active (left_ms : nat).

(** [pdMS_TO_TICKS(500)], kept in milliseconds. *)
Definition FAILSAFE_PERIOD_MS : nat := 500.

(** The globals of ESP_CRSF.c that the receive path reads and writes;
    [failsafe_timer = None] is the [NULL] handle. *)
Record crsf_state : Set := mk_state {
  received_channels : crsf_channels_t;
  received_battery : crsf_battery_t;
  received_link_statistics : crsf_link_statistics_t;
  failsafe_flag : bool;
  failsafe_timer : option timer_t
}.

(** The static initialisers. *)
Definition initial_state : crsf_state :=
  {| received_channels := replicate 16 0;
     received_battery := mk_battery 0 0 0 0;
     received_link_statistics := mk_link_statistics 0 0 0 0 0 0 0 0 0 0;
     failsafe_flag := true;
     failsafe_timer := None |}.

Definition set_received_channels (c : crsf_channels_t) (s : crsf_state) : crsf_state :=
  {| received_channels := c;
     received_battery := received_battery s;
     received_link_statistics := received_link_statistics s;
     failsafe_flag := failsafe_flag s;
     failsafe_timer := failsafe_timer s |}.

Definition set_received_link_statistics (l : crsf_link_statistics_t) (s : crsf_state)
  : crsf_state :=
  {| received_channels := received_channels s;
     received_battery := received_battery s;
     received_link_statistics := l;
     failsafe_flag := failsafe_flag s;
     failsafe_timer := failsafe_timer s |}.

Definition set_failsafe_flag (b : bool) (s : crsf_state) : crsf_state :=
  {| received_channels := received_channels s;
     received_battery := received_battery s;
     received_link_statistics := received_link_statistics s;
     failsafe_flag := b;
     failsafe_timer := failsafe_timer s |}.

Definition set_failsafe_timer (t : option timer_t) (s : crsf_state) : crsf_state :=
  {| received_channels := received_channels s;
     received_battery := received_battery s;
     received_link_statistics := received_link_statistics s;
     failsafe_flag := failsafe_flag s;
     failsafe_timer := t |}.

(** [xTimerReset]: the timer (re)starts with its full period. *)
Definition xTimerReset (t : timer_t) : timer_t := Active FAILSAFE_PERIOD_MS.

(** [if (failsafe_timer != NULL) xTimerReset(failsafe_timer, 0);] *)
Definition reset_failsafe_timer (s : crsf_state) : crsf_state :=
  match failsafe_timer s with
  | Some t => set_failsafe_timer (Some (xTimerReset t)) s
  | None => s
  end.

(** [failsafe_timer_callback] *)
Definition failsafe_timer_callback (s : crsf_state) : crsf_state :=
  set_failsafe_flag true s.

(** [CRSF_is_failsafe] *)
Definition CRSF_is_failsafe (s : crsf_state) : bool := failsafe_flag s.

(** [CRSF_receive_channels] and [CRSF_get_link_statistics] return copies. *)
Definition CRSF_receive_channels (s : crsf_state) : crsf_channels_t := received_channels s.
Definition CRSF_get_link_statistics (s : crsf_state) : crsf_link_statistics_t :=
  received_link_statistics s.

(** The part of [CRSF_init] that touches the state above: the timer is
    created with [failsafe_timer_callback], one-shot, and started;
    [timer_created] says whether [xTimerCreate] returned a handle. *)
Definition CRSF_init (timer_created : bool) (s : crsf_state) : crsf_state :=
  set_failsafe_timer (if timer_created then Some (Active FAILSAFE_PERIOD_MS) else None) s.

Definition RX_BUF_SIZE : nat := 1024.

(** What [xQueueReceive] delivers: a data event with the bytes that
    [uart_read_bytes] then returns ([event.size] is their number), or an
    event of another type. *)
Inductive uart_event_t : Set :=
| UART_DATA (bytes : list Z)
| UART_OTHER.

(** [dtmp] after [bzero(dtmp, RX_BUF_SIZE)] and
    [uart_read_bytes(uart_num, dtmp, event.size, portMAX_DELAY)]. *)
Definition uart_read_bytes (bytes : list Z) : list Z :=
  memcpy (replicate RX_BUF_SIZE 0) 0 bytes (length bytes).

(** The [switch (type)] of [rx_task], on the array [payload]. *)
Definition rx_switch (type : Z) (payload : list Z) (s : crsf_state) : option crsf_state :=
  if type =? crsf_type_code CRSF_TYPE_CHANNELS then
    match read_object payload 22 with
    | None => None
    | Some obj =>
        let s := set_received_channels (channels_of_bytes obj) s in
        let s := reset_failsafe_timer s in
        Some (set_failsafe_flag false s)
    end
  else if type =? crsf_type_code CRSF_TYPE_LINK_STATISTICS then
    match read_object payload 10 with
    | None => None
    | Some obj => Some (set_received_link_statistics (link_statistics_of_bytes obj) s)
    end
  else Some s.

(** One turn of the [for (;;)] loop of [rx_task].  A read of more than
    [RX_BUF_SIZE] bytes would overflow [dtmp].  [payload_length] is a
    [uint8_t]: a length byte below 2 wraps around.  The array [payload] has
    [payload_length] bytes (none for a length byte of 2, which GCC accepts). *)
Definition rx_task_event (event : uart_event_t) (s : crsf_state) : option crsf_state :=
  match event with
  | UART_OTHER => Some s
  | UART_DATA bytes =>
      if (RX_BUF_SIZE <? length bytes)%nat then None
      else
        let dtmp := uart_read_bytes bytes in
        let type := dtmp !!! 2%nat in
        let length := dtmp !!! 1%nat in
        let dest := dtmp !!! 0%nat in
        let payload_length := to_uint8 (length - 2) in
        let payload :=
          (fun i => dtmp !!! (i + 3)%nat) <$> seq 0 (Z.to_nat payload_length) in
        rx_switch type payload s
  end.

(** Time passing by [ms] milliseconds: an active timer whose time is up
    runs its callback once and becomes dormant (it is not auto-reloading). *)
Definition elapse (ms : nat) (s : crsf_state) : crsf_state :=
  match failsafe_timer s with
  | Some (Active left_ms) =>
      if (left_ms <=? ms)%nat
      then failsafe_timer_callback (set_failsafe_timer (Some Dormant) s)
      else set_failsafe_timer (Some (Active (left_ms - ms))) s
  | _ => s
  end.

(** What happens to the running system: the receive task handles an event,
    or time passes. *)
Inductive step_t : Set :=
| Rx (event : uart_event_t)
| Elapse (ms : nat).

Definition step (st : step_t) (s : crsf_state) : option crsf_state :=
  match st with
  | Rx event => rx_task_event event s
  | Elapse ms => Some (elapse ms s)
  end.

Fixpoint run (trace : list step_t) (s : crsf_state) : option crsf_state :=
  match trace with
  | [] => Some s
  | st :: trace' =>
      match step st s with
      | None => None
      | Some s' => run trace' s'
      end
  end.

(** The maximum size of a frame on the wire (specification, 4.2): the
    length byte is at most 62, so with the destination and length bytes a
    frame has at most 64 bytes.  ESP_CRSF.c has no such constant. *)
Definition CRSF_MAX_FRAME_SIZE : Z := 64.

(** *** RPM values on the wire *)

Definition in_int24_range (v : Z) : Prop := -8388608 <= v <= 8388607.

(** The three bytes that [CRSF_send_rpm_values] puts into the packet for
    one value: the body of its conversion loop, in memory order. *)
Definition rpm_pack (v : Z) : list Z := int24_bytes (int32_to_int24 (bswap24 v)).

(** The 24-bit two's complement of [v], most significant byte first. *)
Definition be24 (v : Z) : list Z :=
  [(v / 65536) mod 256; (v / 256) mod 256; v mod 256].

(** The unpack of the specification, "the inverse with sign extension
    from bit 23".  ESP_CRSF.c has no RPM receive path; what it has is the
    sign extension, [int24_to_int32], which is applied here to the
    big-endian triplet put back in host order. *)
Definition spec_rpm_unpack (wire : list Z) : option Z :=
  match wire with
  | [w0; w1; w2] => Some (int24_to_int32 {| byte0 := w2; byte1 := w1; byte2 := w0 |})
  | _ => None
  end.

(** *** Frames and traces of the receive side *)

(** A frame as it travels: destination, length, type, payload, checksum. *)
Definition frame (dest len type : Z) (payload : list Z) (checksum : Z) : list Z :=
  [dest; len; type] ++ payload ++ [checksum].

(** The type byte that [rx_task] sees in a read of [bytes]. *)
Definition seen_type (bytes : list Z) : Z := uart_read_bytes bytes !!! 2%nat.

(** The payload length that [rx_task] computes for a read of [bytes]. *)
Definition seen_payload_length (bytes : list Z) : Z :=
  to_uint8 (uart_read_bytes bytes !!! 1%nat - 2).

(** A step in which [rx_task] takes the channels case. *)
Definition is_channels_step (st : step_t) : bool :=
  match st with
  | Rx (UART_DATA bytes) => seen_type bytes =? crsf_type_code CRSF_TYPE_CHANNELS
  | _ => false
  end.

(** A step during which no access leaves its object: the read fits
    [dtmp], and the payload array is as large as the struct read from it. *)
Definition step_defined (st : step_t) : bool :=
  match st with
  | Rx (UART_DATA bytes) =>
      (length bytes <=? RX_BUF_SIZE)%nat &&
      (if seen_type bytes =? crsf_type_code CRSF_TYPE_CHANNELS
       then 22 <=? seen_payload_length bytes
       else if seen_type bytes =? crsf_type_code CRSF_TYPE_LINK_STATISTICS
            then 10 <=? seen_payload_length bytes
            else true)
  | _ => true
  end.

(** A step that is defined and is not the reception of a channels frame. *)
Definition quiet_step (st : step_t) : bool :=
  step_defined st && negb (is_channels_step st).

(** The reception of a channels frame, defined. *)
Definition channels_step (st : step_t) : bool :=
  step_defined st && is_channels_step st.

(** The time that passes during a trace. *)
Fixpoint elapsed (trace : list step_t) : nat :=
  match trace with
  | [] => 0
  | Elapse ms :: trace' => ms + elapsed trace'
  | Rx _ :: trace' => elapsed trace'
  end.

(** The failsafe flag and the timer after [t] milliseconds in which no
    channels frame is received, from the flag and the timer before. *)
Definition after_quiet (t : nat) (flag : bool) (timer : option timer_t)
  : bool * option timer_t :=
  match timer with
  | Some (Active left_ms) =>
      if (left_ms <=? t)%nat then (true, Some Dormant)
      else (flag, Some (Active (left_ms - t)))
  | _ => (flag, timer)
  end.

(** A timer that is active has time left. *)
Definition timer_wf (timer : option timer_t) : Prop := timer <> Some (Active 0).

(** *** Fields of frames on the wire *)

(** The capacity field of a battery frame: after destination, length and
    type come voltage (2 bytes) and current (2 bytes), then the 3 bytes
    of the capacity. *)
Definition battery_wire_capacity (packet : list Z) : list Z := take 3 (drop 7 packet).

(** The number of entries in a temperature frame: destination, length,
    type, source id, 2 bytes per entry, checksum. *)
Definition temp_entry_count (packet : list Z) : Z := (Z.of_nat (length packet) - 5) / 2.

(** The number of entries in an RPM frame: 3 bytes per entry. *)
Definition rpm_entry_count (packet : list Z) : Z := (Z.of_nat (length packet) - 5) / 3.

(** *** Byte orders, ranges and invariants used by the further properties *)

(** The [n] low bytes of [z], most significant first. *)
Definition be_bytes (n : nat) (z : Z) : list Z := rev (le_bytes n z).

(** The signed value of the low 24 bits of [v]. *)
Definition wrap_int24 (v : Z) : Z := (v + 8388608) mod 16777216 - 8388608.

Definition is_uint16 (z : Z) : Prop := 0 <= z < 65536.
Definition is_int32 (z : Z) : Prop := -2147483648 <= z <= 2147483647.

(** A [crsf_gps_t] whose fields hold values of their C types. *)
Definition gps_in_range (g : crsf_gps_t) : Prop :=
  is_int32 (latitude g) /\ is_int32 (longitude g) /\
  is_uint16 (groundspeed g) /\ is_uint16 (heading g) /\ is_uint16 (altitude g) /\
  is_uint8 (satellites g).

(** Sixteen channel values of 11 bits each. *)
Definition channels_wf (c : crsf_channels_t) : Prop :=
  length c = 16%nat /\ Forall (fun v => 0 <= v <= 2047) c.

(** The watchdog as [CRSF_init] sets it up and [rx_task] keeps it: there
    is a timer; while it is active it has at most the period left; once it
    is dormant the failsafe flag is set. *)
Definition watchdog_inv (s : crsf_state) : Prop :=
  match failsafe_timer s with
  | Some (Active left_ms) => (0 < left_ms <= FAILSAFE_PERIOD_MS)%nat
  | Some Dormant => failsafe_flag s = true
  | None => False
  end.

(** The three bytes of entry [i] in an RPM frame: destination, length,
    type and source id come first, then 3 bytes per entry. *)
Definition rpm_wire_triplet (packet : list Z) (i : nat) : list Z :=
  take 3 (drop (4 + 3 * i) packet).

(** * Properties *)

(** ** Bytes and bit operations *)

Lemma to_uint8_range z : is_uint8 (to_uint8 z).
Proof. unfold is_uint8, to_uint8. apply Z.mod_pos_bound. lia. Qed.

Lemma to_uint8_id z : is_uint8 z -> to_uint8 z = z.
Proof. unfold is_uint8, to_uint8. intros H. apply Z.mod_small. lia. Qed.

Lemma land_255_mod z : Z.land z 255 = z mod 256.
Proof. change 255 with (Z.ones 8). rewrite Z.land_ones by lia. reflexivity. Qed.

Lemma land_lxor_distr a b c :
  Z.land (Z.lxor a b) c = Z.lxor (Z.land a c) (Z.land b c).
Proof.
  apply Z.bits_inj'. intros n _.
  rewrite !Z.land_spec, !Z.lxor_spec, !Z.land_spec.
  destruct (Z.testbit a n), (Z.testbit b n), (Z.testbit c n); reflexivity.
Qed.

Lemma lxor_uint8 a b : is_uint8 a -> is_uint8 b -> is_uint8 (Z.lxor a b).
Proof.
  unfold is_uint8. intros Ha Hb.
  assert (Hm : Z.lxor a b = Z.lxor a b mod 256).
  { rewrite <- land_255_mod, land_lxor_distr, !land_255_mod.
    rewrite !Z.mod_small by lia. reflexivity. }
  rewrite Hm. apply Z.mod_pos_bound. lia.
Qed.

Lemma land_pow2_eqb c n :
  0 <= n -> (Z.land c (2 ^ n) =? 0) = negb (Z.testbit c n).
Proof.
  intros Hn.
  assert (H : Z.land c (2 ^ n) = if Z.testbit c n then 2 ^ n else 0).
  { apply Z.bits_inj'. intros i Hi. rewrite Z.land_spec.
    destruct (Z.eq_dec i n) as [->|Hne].
    - rewrite Z.pow2_bits_true by lia. rewrite andb_true_r.
      destruct (Z.testbit c n); [rewrite Z.pow2_bits_true by lia | rewrite Z.bits_0]; reflexivity.
    - rewrite Z.pow2_bits_false by lia. rewrite andb_false_r.
      destruct (Z.testbit c n); [rewrite Z.pow2_bits_false by lia | rewrite Z.bits_0]; reflexivity. }
  rewrite H. destruct (Z.testbit c n); [|reflexivity].
  simpl negb. apply Z.eqb_neq. pose proof (Z.pow_pos_nonneg 2 n). lia.
Qed.

Lemma land_bit7 c : (Z.land c 0x80 =? 0) = negb (Z.testbit c 7).
Proof. apply (land_pow2_eqb c 7). lia. Qed.

(** A field that does not overlap the bits above it: [|] is [+]. *)
Lemma lor_shiftl_add hi lo n :
  0 <= n -> 0 <= lo < 2 ^ n -> Z.lor (Z.shiftl hi n) lo = hi * 2 ^ n + lo.
Proof.
  intros Hn Hlo.
  assert (Hdisj : Z.land (Z.shiftl hi n) lo = 0).
  { apply Z.bits_inj'. intros i Hi. rewrite Z.land_spec, Z.bits_0.
    destruct (Z.lt_ge_cases i n) as [Hlt|Hge].
    - rewrite Z.shiftl_spec_low by lia. reflexivity.
    - rewrite <- (Z.mod_small lo (2 ^ n)) by lia.
      rewrite Z.mod_pow2_bits_high by lia. apply andb_false_r. }
  pose proof (Z.add_lor_land (Z.shiftl hi n) lo) as Hadd.
  rewrite Hdisj, Z.shiftl_mul_pow2 in Hadd by lia.
  rewrite Z.shiftl_mul_pow2 by lia. lia.
Qed.

(** Masking a field of [n] bits at position [k]. *)
Lemma land_field u n k :
  0 <= n -> 0 <= k ->
  Z.land u (Z.shiftl (Z.ones n) k) = ((u / 2 ^ k) mod 2 ^ n) * 2 ^ k.
Proof.
  intros Hn Hk.
  rewrite <- Z.shiftr_div_pow2, <- Z.shiftl_mul_pow2 by lia.
  apply Z.bits_inj'. intros i Hi.
  rewrite Z.land_spec, !Z.shiftl_spec by lia.
  rewrite Z.testbit_ones by lia.
  destruct (Z.lt_ge_cases i k) as [Hlt|Hge].
  - rewrite (Z.testbit_neg_r _ (i - k)) by lia.
    replace (0 <=? i - k) with false by (symmetry; apply Z.leb_gt; lia).
    apply andb_false_r.
  - rewrite Z.testbit_mod_pow2, Z.shiftr_spec by lia.
    replace (i - k + k) with i by lia.
    replace (0 <=? i - k) with true by (symmetry; apply Z.leb_le; lia).
    simpl andb. apply andb_comm.
Qed.

Lemma testbit_top u n :
  0 <= n -> 0 <= u < 2 ^ (n + 1) -> Z.testbit u n = (2 ^ n <=? u).
Proof.
  intros Hn Hu. rewrite Z.testbit_eqb by lia.
  rewrite Z.pow_add_r in Hu by lia. change (2 ^ 1) with 2 in Hu.
  pose proof (Z.pow_pos_nonneg 2 n) as Hpos.
  destruct (Z.leb_spec (2 ^ n) u) as [Hle|Hlt].
  - replace (u / 2 ^ n) with 1; [reflexivity|].
    apply Z.div_unique with (r := u - 2 ^ n); lia.
  - rewrite Z.div_small by lia. reflexivity.
Qed.

Module CRCFacts.
Import CRC.

(** The C expression of one round and the round of the specification
    compute the same byte. *)
Lemma crc_shift_spec_round poly c :
  is_uint8 poly -> crc_shift poly c = spec_round poly c.
Proof.
  intros Hp. unfold crc_shift, spec_round, to_uint8.
  rewrite land_bit7, Z.shiftl_mul_pow2 by lia.
  replace (c * 2 ^ 1) with (2 * c) by lia.
  destruct (Z.testbit c 7); simpl negb; cbv iota.
  - rewrite <- !land_255_mod, land_lxor_distr, (land_255_mod poly).
    unfold is_uint8 in Hp. rewrite (Z.mod_small poly) by lia. reflexivity.
  - rewrite Z.lxor_0_r. reflexivity.
Qed.

Lemma crc_shift_range poly c : is_uint8 (crc_shift poly c).
Proof. apply to_uint8_range. Qed.

Lemma crc_shift_loop_iter n poly c :
  is_uint8 poly -> crc_shift_loop n poly c = Nat.iter n (spec_round poly) c.
Proof.
  intros Hp. revert c. induction n as [|n IH]; intros c; [reflexivity|].
  cbn [crc_shift_loop]. rewrite IH, crc_shift_spec_round by assumption.
  rewrite Nat.iter_succ_r. reflexivity.
Qed.

Lemma crc_shift_loop_range n poly c :
  is_uint8 c -> is_uint8 (crc_shift_loop n poly c).
Proof.
  revert c. induction n as [|n IH]; intros c Hc; [assumption|].
  cbn [crc_shift_loop]. apply IH, crc_shift_range.
Qed.

(** The value stored at [idx] by the body of the outer loop. *)
Lemma table_entry_spec poly idx :
  is_uint8 poly -> is_uint8 idx ->
  Z.land (crc_shift_loop 8 poly (to_uint8 idx)) 0xff = spec_table_entry poly idx.
Proof.
  intros Hp Hi. rewrite to_uint8_id by assumption.
  rewrite land_255_mod.
  pose proof (crc_shift_loop_range 8 poly idx Hi) as Hr.
  rewrite crc_shift_loop_iter in Hr |- * by assumption.
  unfold spec_table_entry. unfold is_uint8 in Hr. apply Z.mod_small. exact Hr.
Qed.

(** Invariant of the outer loop after [n] iterations: the entries below
    [n] are filled, the others are as before. *)
Lemma generate_CRC_prefix poly (tbl : list Z) (n i : nat) :
  (n <= length tbl)%nat ->
  fold_left (generate_CRC_body poly) (Z.of_nat <$> seq 0 n) tbl !! i =
  if (i <? n)%nat
  then (fun _ => Z.land (crc_shift_loop 8 poly (to_uint8 (Z.of_nat i))) 0xff) <$> tbl !! i
  else tbl !! i.
Proof.
  induction n as [|n IH]; intros Hn.
  - simpl. reflexivity.
  - rewrite seq_S, fmap_app, fold_left_app. simpl.
    unfold generate_CRC_body at 1. rewrite Nat2Z.id.
    assert (Hlen : length (fold_left (generate_CRC_body poly) (Z.of_nat <$> seq 0 n) tbl)
                  = length tbl).
    { clear. generalize (Z.of_nat <$> seq 0 n). intros l. revert tbl.
      induction l as [|x l IHl]; intros tbl; [reflexivity|].
      simpl. rewrite IHl. unfold generate_CRC_body. apply length_insert. }
    destruct (Nat.eq_dec i n) as [->|Hne].
    + rewrite list_lookup_insert_eq by lia.
      replace (n <? S n)%nat with true by (symmetry; apply Nat.ltb_lt; lia).
      destruct (tbl !! n) eqn:E; [reflexivity|].
      apply lookup_ge_None in E. lia.
    + rewrite list_lookup_insert_ne by congruence. rewrite IH by lia.
      destruct (Nat.ltb_spec i n), (Nat.ltb_spec i (S n)); try lia; reflexivity.
Qed.

Lemma generate_CRC_length poly (tbl : list Z) :
  length (generate_CRC poly tbl) = length tbl.
Proof.
  unfold generate_CRC. generalize (Z.of_nat <$> seq 0 256). intros l. revert tbl.
  induction l as [|x l IHl]; intros tbl; [reflexivity|].
  simpl. rewrite IHl. unfold generate_CRC_body. apply length_insert.
Qed.

Lemma generate_CRC_lookup poly (tbl : list Z) idx :
  is_uint8 poly -> is_uint8 idx -> length tbl = 256%nat ->
  generate_CRC poly tbl !! Z.to_nat idx = Some (spec_table_entry poly idx).
Proof.
  intros Hp Hi Hl. unfold generate_CRC.
  rewrite generate_CRC_prefix by lia.
  unfold is_uint8 in Hi.
  replace (Z.to_nat idx <? 256)%nat with true by (symmetry; apply Nat.ltb_lt; lia).
  destruct (tbl !! Z.to_nat idx) eqn:E.
  - cbn [fmap option_fmap option_map]. rewrite Z2Nat.id by lia. f_equal.
    apply table_entry_spec; assumption.
  - apply lookup_ge_None in E. lia.
Qed.

Lemma generate_CRC_lookup_total poly (tbl : list Z) idx :
  is_uint8 poly -> is_uint8 idx -> length tbl = 256%nat ->
  generate_CRC poly tbl !!! Z.to_nat idx = spec_table_entry poly idx.
Proof.
  intros Hp Hi Hl. apply list_lookup_total_correct, generate_CRC_lookup; assumption.
Qed.

End CRCFacts.

Module CRC8Facts.
Import CRC CRCFacts.

(** [crc8_loop] over the first [length data] bytes of a buffer is the
    fold of the table over them. *)
Lemma crc8_loop_fold (tbl : list Z) (data rest : list Z) (crc : Z) :
  crc8_loop tbl crc (data ++ rest) (length data) =
  Some (fold_left (fun crc b => tbl !!! Z.to_nat (Z.lxor crc b)) data crc).
Proof.
  revert crc. induction data as [|b data IH]; intros crc; [reflexivity|].
  simpl. apply IH.
Qed.

Lemma crc8_fold (tbl : list Z) (data rest : list Z) :
  (length data <= 255)%nat ->
  crc8 tbl (data ++ rest) (Z.of_nat (length data)) =
  Some (spec_fold (fun i => tbl !!! Z.to_nat i) data).
Proof.
  intros Hlen. unfold crc8. rewrite to_uint8_id by (unfold is_uint8; lia).
  rewrite Nat2Z.id. apply crc8_loop_fold.
Qed.

Lemma spec_table_entry_range poly v : is_uint8 poly -> is_uint8 v -> is_uint8 (spec_table_entry poly v).
Proof.
  intros Hp Hv. unfold spec_table_entry.
  rewrite <- crc_shift_loop_iter by assumption.
  apply crc_shift_loop_range. assumption.
Qed.

(** With the generated table, the fold is the bit-by-bit reference. *)
Lemma fold_generated_reference poly (tbl : list Z) (data : list Z) (crc : Z) :
  is_uint8 poly -> length tbl = 256%nat -> is_uint8 crc -> Forall is_uint8 data ->
  fold_left (fun crc b => generate_CRC poly tbl !!! Z.to_nat (Z.lxor crc b)) data crc =
  fold_left (fun crc b => Nat.iter 8 (spec_round poly) (Z.lxor crc b)) data crc.
Proof.
  intros Hp Hl Hc Hd. revert crc Hc.
  induction Hd as [|b data Hb Hd IH]; intros crc Hc; [reflexivity|].
  simpl. pose proof (lxor_uint8 crc b Hc Hb) as Hx.
  rewrite generate_CRC_lookup_total by assumption.
  apply IH. apply spec_table_entry_range; assumption.
Qed.

Lemma crc8_generated_reference poly (data rest : list Z) :
  is_uint8 poly -> Forall is_uint8 data -> (length data <= 255)%nat ->
  crc8 (generate_CRC poly crc8_table_init) (data ++ rest) (Z.of_nat (length data)) =
  Some (reference_crc8 poly data).
Proof.
  intros Hp Hd Hlen. rewrite crc8_fold by assumption. f_equal.
  unfold spec_fold, reference_crc8.
  apply fold_generated_reference; try assumption; [reflexivity | unfold is_uint8; lia].
Qed.

Lemma crsf_table_eq : crsf_table = generate_CRC 0xd5 crc8_table_init.
Proof. vm_compute. reflexivity. Qed.

End CRC8Facts.

(** C3: the table built by [generate_CRC] holds, at each of the 256
    indices, the result of exactly eight rounds of "shift left by one, XOR
    the polynomial if the top bit was set before the shift"; [crc8] folds
    the bytes through [table[crc ^ byte]] from 0 and so agrees with the
    bit-by-bit reference CRC8; for polynomial 0xD5 the empty sequence gives
    0, the byte 0x01 gives 0xD5 and the ASCII digits "123456789" give the
    catalogue check value 0xBC. *)
Theorem C3_crc8_table_and_checksum (poly idx : Z) (data : list Z) :
  is_uint8 poly -> is_uint8 idx -> Forall is_uint8 data -> (length data <= 255)%nat ->
  let table := CRC.generate_CRC poly CRC.crc8_table_init in
  length table = 256%nat /\
  table !! Z.to_nat idx = Some (CRC.spec_table_entry poly idx) /\
  CRC.crc8 table data (Z.of_nat (length data)) =
    Some (CRC.spec_fold (fun i => table !!! Z.to_nat i) data) /\
  CRC.crc8 table data (Z.of_nat (length data)) = Some (CRC.reference_crc8 poly data) /\
  CRC.crc8 CRC.crsf_table [] 0 = Some 0 /\
  CRC.crc8 CRC.crsf_table [0x01] 1 = Some 0xD5 /\
  CRC.crc8 CRC.crsf_table [0x31; 0x32; 0x33; 0x34; 0x35; 0x36; 0x37; 0x38; 0x39] 9 = Some 0xBC.
Proof.
  intros Hp Hi Hd Hlen table. subst table.
  split; [|split; [|split; [|split]]].
  - rewrite CRCFacts.generate_CRC_length. reflexivity.
  - apply CRCFacts.generate_CRC_lookup; [assumption | assumption | reflexivity].
  - rewrite <- (app_nil_r data) at 1. apply CRC8Facts.crc8_fold. assumption.
  - rewrite <- (app_nil_r data) at 1. apply CRC8Facts.crc8_generated_reference; assumption.
  - vm_compute. repeat split.
Qed.

Lemma C3_crc8_table_and_checksum_witness :
  CRC.generate_CRC 0xd5 CRC.crc8_table_init !! 2%nat = Some (CRC.spec_table_entry 0xd5 2) /\
  CRC.crc8 (CRC.generate_CRC 0xd5 CRC.crc8_table_init) [0xC8; 0x16; 0xFF] 3 =
    Some (CRC.reference_crc8 0xd5 [0xC8; 0x16; 0xFF]).
Proof.
  assert (Hd : Forall is_uint8 [0xC8; 0x16; 0xFF]).
  { repeat constructor; unfold is_uint8; lia. }
  destruct (C3_crc8_table_and_checksum 0xd5 2 [0xC8; 0x16; 0xFF])
    as (_ & Htab & _ & Href & _); [unfold is_uint8; lia | unfold is_uint8; lia | exact Hd | simpl; lia |].
  split; [exact Htab | exact Href].
Defined.

(** ** The frame encoder *)

Lemma crsf_dest_code_uint8 d : to_uint8 (crsf_dest_code d) = crsf_dest_code d.
Proof. destruct d; reflexivity. Qed.

Lemma crsf_type_code_uint8 t : to_uint8 (crsf_type_code t) = crsf_type_code t.
Proof. destruct t; reflexivity. Qed.

(** The packet written by [CRSF_send_payload] for the first [n] bytes of
    the object [mem], whatever the table is. *)
Lemma CRSF_send_payload_packet (tbl mem : list Z) dest type (n : Z) (log : uart_log) :
  0 <= n <= 253 -> n <= Z.of_nat (length mem) ->
  CRSF_send_payload tbl mem dest type n log =
  Some (tt, log ++ [[crsf_dest_code dest; n + 2; crsf_type_code type]
                      ++ take (Z.to_nat n) mem
                      ++ [CRC.spec_fold (fun i => tbl !!! Z.to_nat i)
                            (crsf_type_code type :: take (Z.to_nat n) mem)]]).
Proof.
  intros Hn Hmem. unfold CRSF_send_payload.
  rewrite (to_uint8_id n) by (unfold is_uint8; lia).
  rewrite (to_uint8_id (n + 2)) by (unfold is_uint8; lia).
  rewrite crsf_dest_code_uint8, crsf_type_code_uint8.
  replace (Z.of_nat (length mem) <? n) with false by (symmetry; apply Z.ltb_ge; lia).
  remember (Z.to_nat n) as k eqn:Hkn.
  assert (Hk : length (take k mem) = k) by (rewrite length_take; lia).
  replace (Z.to_nat (n + 4)) with (3 + (k + 1))%nat by lia.
  replace (Z.to_nat (n + 3)) with (3 + k)%nat by lia.
  cbn [Nat.add replicate].
  match goal with
  | |- context [memcpy ?p _ _ _] =>
      change p with (crsf_dest_code dest :: n + 2 :: crsf_type_code type
                       :: replicate (k + 1) 0)
  end.
  unfold memcpy. cbn [take drop Nat.add app].
  rewrite take_0, drop_replicate. cbn [app].
  replace (k + 1 - k)%nat with 1%nat by lia.
  cbn [replicate].
  replace (n + 1) with (Z.of_nat (length (crsf_type_code type :: take k mem)))
    by (cbn [length]; lia).
  pose proof (CRC8Facts.crc8_fold tbl (crsf_type_code type :: take k mem) [0]) as Hcrc.
  cbn [app] in Hcrc. rewrite Hcrc by (cbn [length]; lia). clear Hcrc.
  assert (Hins : forall x a b c,
             <[S (S (S k)) := x]> (a :: b :: c :: take k mem ++ [0])
             = a :: b :: c :: take k mem ++ [x]).
  { intros x a b c.
    change (a :: b :: c :: take k mem ++ [0]) with ([a; b; c] ++ (take k mem ++ [0])).
    rewrite insert_app_r_alt by (cbn [length]; lia).
    cbn [length]. replace (S (S (S k)) - 3)%nat with k by lia.
    rewrite insert_app_r_alt by lia. rewrite Hk, Nat.sub_diag. reflexivity. }
  rewrite Hins. unfold uart_write_bytes. do 3 f_equal.
  rewrite take_ge; [reflexivity|].
  cbn [length]. rewrite length_app, Hk. cbn [length]. lia.
Qed.

(** C4: for every destination, type and payload within the maximum frame
    size, [CRSF_send_payload] (with the table of [CRSF_init]) writes exactly
    the bytes destination, payload length + 2, type, the payload, and the
    CRC8 with polynomial 0xD5 of the type byte followed by the payload. *)
Theorem C4_encode_frame_layout (dest : crsf_dest_t) (type : crsf_type_t)
    (payload : list Z) (log : uart_log) :
  Forall is_uint8 payload ->
  Z.of_nat (length payload) + 4 <= CRSF_MAX_FRAME_SIZE ->
  CRSF_send_payload CRC.crsf_table payload dest type (Z.of_nat (length payload)) log =
  Some (tt, log ++ [[crsf_dest_code dest; Z.of_nat (length payload) + 2; crsf_type_code type]
                      ++ payload
                      ++ [CRC.reference_crc8 0xD5 (crsf_type_code type :: payload)]]).
Proof.
  intros Hbytes Hsize. unfold CRSF_MAX_FRAME_SIZE in Hsize.
  rewrite CRSF_send_payload_packet by lia.
  rewrite Nat2Z.id, firstn_all.
  rewrite CRC8Facts.crsf_table_eq.
  unfold CRC.spec_fold, CRC.reference_crc8.
  rewrite CRC8Facts.fold_generated_reference; [reflexivity | | | |].
  - unfold is_uint8; lia.
  - reflexivity.
  - unfold is_uint8; lia.
  - constructor; [destruct type; unfold is_uint8; simpl; lia | assumption].
Qed.

Lemma C4_encode_frame_layout_witness :
  CRSF_send_payload CRC.crsf_table [1; 2; 3] CRSF_DEST_FC CRSF_TYPE_GPS 3 [] =
  Some (tt, [[0xC8; 5; 0x02; 1; 2; 3; CRC.reference_crc8 0xD5 [0x02; 1; 2; 3]]]).
Proof.
  apply (C4_encode_frame_layout CRSF_DEST_FC CRSF_TYPE_GPS [1; 2; 3] []).
  - repeat constructor; unfold is_uint8; lia.
  - unfold CRSF_MAX_FRAME_SIZE. simpl. lia.
Defined.

(** ** RPM values: 24-bit big-endian triplets *)

Module RPMFacts.

Lemma int32_to_int24_bytes v :
  int32_to_int24 v =
  {| byte0 := v mod 256; byte1 := (v / 256) mod 256; byte2 := (v / 65536) mod 256 |}.
Proof.
  unfold int32_to_int24, to_uint8.
  rewrite !land_255_mod, !Z.shiftr_div_pow2 by lia.
  rewrite !Z.mod_mod by lia. reflexivity.
Qed.

(** The value [int24_to_int32] computes from three bytes. *)
Lemma int24_to_int32_value b0 b1 b2 :
  is_uint8 b0 -> is_uint8 b1 -> is_uint8 b2 ->
  int24_to_int32 {| byte0 := b0; byte1 := b1; byte2 := b2 |} =
  let r := b2 * 65536 + b1 * 256 + b0 in
  if r <? 8388608 then r else r - 16777216.
Proof.
  unfold is_uint8. intros H0 H1 H2. unfold int24_to_int32. cbn [byte0 byte1 byte2].
  assert (Hr : Z.lor (Z.lor (Z.shiftl b2 16) (Z.shiftl b1 8)) b0
               = b2 * 65536 + b1 * 256 + b0).
  { rewrite (Z.shiftl_mul_pow2 b1 8) by lia.
    rewrite (lor_shiftl_add b2 (b1 * 2 ^ 8) 16) by lia.
    replace (b2 * 2 ^ 16 + b1 * 2 ^ 8) with (Z.shiftl (b2 * 256 + b1) 8)
      by (rewrite Z.shiftl_mul_pow2 by lia; lia).
    rewrite lor_shiftl_add by lia. lia. }
  rewrite Hr. cbv zeta. set (r := b2 * 65536 + b1 * 256 + b0).
  assert (Hrange : 0 <= r < 2 ^ (23 + 1)) by (subst r; simpl; lia).
  change 0x800000 with (2 ^ 23).
  rewrite land_pow2_eqb, (testbit_top r 23) by lia.
  change (2 ^ 23) with 8388608.
  destruct (Z.leb_spec 8388608 r) as [Hneg|Hpos]; simpl negb; cbv iota.
  - replace (r <? 8388608) with false by (symmetry; apply Z.ltb_ge; lia).
    unfold to_uint32, to_int32. simpl in Hrange.
    rewrite (Z.mod_small r) by lia.
    rewrite Z.lor_comm. change 0xFF000000 with (Z.shiftl 0xFF 24).
    rewrite lor_shiftl_add by lia.
    replace (255 * 2 ^ 24 + r + 2147483648) with (r - 16777216 + 2147483648 + 1 * 4294967296) by lia.
    rewrite Z.mod_add by lia. rewrite Z.mod_small by lia. lia.
  - replace (r <? 8388608) with true by (symmetry; apply Z.ltb_lt; lia).
    reflexivity.
Qed.

(** [bswap24] exchanges the first and the third byte of the low 24 bits. *)
Lemma bswap24_value v :
  bswap24 v =
  (v mod 256) * 65536 + ((v / 256) mod 256) * 256 + (v / 65536) mod 256.
Proof.
  unfold bswap24, to_uint32. set (u := v mod 4294967296).
  change 0x0000FF with 255. rewrite land_255_mod.
  change 0x00FF00 with (Z.shiftl (Z.ones 8) 8).
  change 0xFF0000 with (Z.shiftl (Z.ones 8) 16).
  rewrite !land_field by lia.
  rewrite Z.shiftr_div_pow2, Z.div_mul by lia.
  pose proof (Z.mod_pos_bound u 256) as B0.
  pose proof (Z.mod_pos_bound (u / 2 ^ 8) (2 ^ 8)) as B1.
  pose proof (Z.mod_pos_bound (u / 2 ^ 16) (2 ^ 8)) as B2.
  rewrite (lor_shiftl_add (u mod 256) _ 16) by lia.
  replace (u mod 256 * 2 ^ 16 + (u / 2 ^ 8) mod 2 ^ 8 * 2 ^ 8)
    with (Z.shiftl (u mod 256 * 256 + (u / 2 ^ 8) mod 2 ^ 8) 8)
    by (rewrite Z.shiftl_mul_pow2 by lia; lia).
  rewrite lor_shiftl_add by lia.
  change (2 ^ 8) with 256. change (2 ^ 16) with 65536.
  subst u. clear. Z.div_mod_to_equations. lia.
Qed.

(** On the wire an RPM value is its 24-bit two's complement, big-endian. *)
Lemma rpm_pack_be24 v : rpm_pack v = be24 v.
Proof.
  unfold rpm_pack, be24, int24_bytes.
  rewrite int32_to_int24_bytes. cbn [byte0 byte1 byte2].
  rewrite bswap24_value.
  f_equal; [|f_equal; [|f_equal]]; clear; Z.div_mod_to_equations; lia.
Qed.

Lemma int24_roundtrip v : in_int24_range v -> int24_to_int32 (int32_to_int24 v) = v.
Proof.
  unfold in_int24_range. intros Hv.
  rewrite int32_to_int24_bytes.
  rewrite int24_to_int32_value by (unfold is_uint8; apply Z.mod_pos_bound; lia).
  cbv zeta.
  destruct (Z.ltb_spec ((v / 65536) mod 256 * 65536 + (v / 256) mod 256 * 256 + v mod 256)
                       8388608) as [H|H];
    revert H; Z.div_mod_to_equations; lia.
Qed.

Lemma spec_rpm_unpack_pack v : in_int24_range v -> spec_rpm_unpack (rpm_pack v) = Some v.
Proof.
  intros Hv. rewrite rpm_pack_be24. unfold be24, spec_rpm_unpack. f_equal.
  rewrite <- (int24_roundtrip v Hv) at 4.
  rewrite int32_to_int24_bytes. reflexivity.
Qed.

End RPMFacts.

(** ** The receive task *)

Module RxFacts.

Lemma uart_read_bytes_eq (bytes : list Z) :
  (length bytes <= RX_BUF_SIZE)%nat ->
  uart_read_bytes bytes = bytes ++ replicate (RX_BUF_SIZE - length bytes) 0.
Proof.
  intros Hlen. unfold uart_read_bytes, memcpy.
  rewrite take_0, firstn_all, drop_replicate. reflexivity.
Qed.

(** Bytes that a read did not deliver are the zeros of [bzero]. *)
Lemma uart_read_bytes_zeros (bytes : list Z) (n : nat) :
  (length bytes + n <= RX_BUF_SIZE)%nat ->
  uart_read_bytes (bytes ++ replicate n 0) = uart_read_bytes bytes.
Proof.
  intros Hlen.
  rewrite !uart_read_bytes_eq by (rewrite ?length_app, ?length_replicate; lia).
  rewrite length_app, length_replicate, <- app_assoc, <- replicate_add.
  do 2 f_equal. lia.
Qed.

(** The copy loop [payload[i] = dtmp[i + 3]] over a buffer that holds
    three header bytes, then [p], then anything. *)
Lemma payload_copy (a b c : Z) (p rest : list Z) :
  (fun i => (a :: b :: c :: p ++ rest) !!! (i + 3)%nat) <$> seq 0 (length p) = p.
Proof.
  apply list_eq. intros i. rewrite list_lookup_fmap.
  destruct (decide (i < length p)%nat) as [Hlt|Hge].
  - rewrite lookup_seq_lt by assumption. cbn [fmap option_fmap option_map Nat.add].
    destruct (lookup_lt_is_Some_2 p i Hlt) as [x Hx]. rewrite Hx. f_equal.
    apply list_lookup_total_correct.
    replace (i + 3)%nat with (S (S (S i))) by lia. cbn [lookup list_lookup].
    change ((p ++ rest) !! i = Some x).
    rewrite lookup_app_l by assumption. exact Hx.
  - rewrite lookup_seq_ge by lia. cbn. symmetry. apply lookup_ge_None. lia.
Qed.

Lemma seen_type_cons (d l t : Z) (rest : list Z) :
  (length (d :: l :: t :: rest) <= RX_BUF_SIZE)%nat ->
  seen_type (d :: l :: t :: rest) = t.
Proof. intros Hlen. unfold seen_type. rewrite uart_read_bytes_eq by assumption. reflexivity. Qed.

Lemma rx_task_event_unfold (bytes : list Z) (s : crsf_state) :
  (length bytes <= RX_BUF_SIZE)%nat ->
  rx_task_event (UART_DATA bytes) s =
  rx_switch (seen_type bytes)
    ((fun i => uart_read_bytes bytes !!! (i + 3)%nat)
       <$> seq 0 (Z.to_nat (seen_payload_length bytes))) s.
Proof.
  intros Hlen. unfold rx_task_event.
  replace (RX_BUF_SIZE <? length bytes)%nat with false
    by (symmetry; apply Nat.ltb_ge; assumption).
  reflexivity.
Qed.

(** A frame whose length byte agrees with its payload reaches the switch
    with its type byte and its payload: neither the destination nor the
    checksum byte is looked at. *)
Lemma rx_task_event_frame (d l t c : Z) (p : list Z) (s : crsf_state) :
  length p = Z.to_nat (to_uint8 (l - 2)) ->
  rx_task_event (UART_DATA (frame d l t p c)) s = rx_switch t p s.
Proof.
  intros Hp.
  assert (Hlen : (length (frame d l t p c) <= RX_BUF_SIZE)%nat).
  { unfold frame, RX_BUF_SIZE. cbn [app length]. rewrite length_app. cbn [length].
    pose proof (to_uint8_range (l - 2)) as Hr. unfold is_uint8 in Hr. lia. }
  rewrite rx_task_event_unfold by assumption.
  unfold seen_type, seen_payload_length.
  rewrite uart_read_bytes_eq by assumption.
  unfold frame. cbn [app]. cbn [lookup_total list_lookup_total].
  rewrite <- Hp. rewrite <- (app_assoc p). rewrite payload_copy. reflexivity.
Qed.

Lemma rx_switch_other (t : Z) (payload : list Z) (s : crsf_state) :
  t <> crsf_type_code CRSF_TYPE_CHANNELS ->
  t <> crsf_type_code CRSF_TYPE_LINK_STATISTICS ->
  rx_switch t payload s = Some s.
Proof.
  intros Hc Hl. unfold rx_switch.
  destruct (Z.eqb_spec t (crsf_type_code CRSF_TYPE_CHANNELS)); [contradiction|].
  destruct (Z.eqb_spec t (crsf_type_code CRSF_TYPE_LINK_STATISTICS)); [contradiction|].
  reflexivity.
Qed.

End RxFacts.

(** C10: a received frame whose type byte is neither the channels type nor
    the link-statistics type (battery, GPS, RPM, temperature, any other
    byte) leaves the whole state as it was, and so the stored channels, the
    stored link statistics and the failsafe flag. *)
Theorem C10_other_types_leave_state (d l t : Z) (rest : list Z) (s : crsf_state) :
  (length (d :: l :: t :: rest) <= RX_BUF_SIZE)%nat ->
  t <> crsf_type_code CRSF_TYPE_CHANNELS ->
  t <> crsf_type_code CRSF_TYPE_LINK_STATISTICS ->
  exists s',
    rx_task_event (UART_DATA (d :: l :: t :: rest)) s = Some s' /\
    s' = s /\
    CRSF_receive_channels s' = CRSF_receive_channels s /\
    CRSF_get_link_statistics s' = CRSF_get_link_statistics s /\
    CRSF_is_failsafe s' = CRSF_is_failsafe s.
Proof.
  intros Hlen Hc Hl. exists s.
  rewrite RxFacts.rx_task_event_unfold by assumption.
  rewrite RxFacts.seen_type_cons by assumption.
  rewrite RxFacts.rx_switch_other by assumption.
  repeat split.
Qed.

Lemma C10_other_types_leave_state_witness :
  exists s',
    rx_task_event
      (UART_DATA [0xC8; 10; crsf_type_code CRSF_TYPE_BATTERY; 0; 1; 0; 2; 0; 2; 3; 50; 7])
      initial_state = Some s' /\
    s' = initial_state /\
    CRSF_receive_channels s' = CRSF_receive_channels initial_state /\
    CRSF_get_link_statistics s' = CRSF_get_link_statistics initial_state /\
    CRSF_is_failsafe s' = CRSF_is_failsafe initial_state.
Proof.
  apply (C10_other_types_leave_state 0xC8 10 (crsf_type_code CRSF_TYPE_BATTERY)
           [0; 1; 0; 2; 0; 2; 3; 50; 7] initial_state).
  - unfold RX_BUF_SIZE. simpl. lia.
  - simpl. lia.
  - simpl. lia.
Defined.

Module SwitchFacts.

Lemma rx_switch_channels (payload : list Z) (s : crsf_state) :
  (22 <= length payload)%nat ->
  rx_switch (crsf_type_code CRSF_TYPE_CHANNELS) payload s =
  Some (set_failsafe_flag false
          (reset_failsafe_timer
             (set_received_channels (channels_of_bytes (take 22 payload)) s))).
Proof.
  intros Hlen. unfold rx_switch, read_object.
  rewrite Z.eqb_refl.
  replace (length payload <? 22)%nat with false by (symmetry; apply Nat.ltb_ge; lia).
  reflexivity.
Qed.

Lemma rx_switch_link_statistics (payload : list Z) (s : crsf_state) :
  (10 <= length payload)%nat ->
  rx_switch (crsf_type_code CRSF_TYPE_LINK_STATISTICS) payload s =
  Some (set_received_link_statistics (link_statistics_of_bytes (take 10 payload)) s).
Proof.
  intros Hlen. unfold rx_switch, read_object.
  change (crsf_type_code CRSF_TYPE_LINK_STATISTICS =? crsf_type_code CRSF_TYPE_CHANNELS)
    with false. cbv iota.
  rewrite Z.eqb_refl.
  replace (length payload <? 10)%nat with false by (symmetry; apply Nat.ltb_ge; lia).
  reflexivity.
Qed.

(** The switch returns whenever the payload array is as large as the
    struct that the case of its type reads. *)
Lemma rx_switch_defined (t : Z) (payload : list Z) (s : crsf_state) :
  (t = crsf_type_code CRSF_TYPE_CHANNELS -> (22 <= length payload)%nat) ->
  (t = crsf_type_code CRSF_TYPE_LINK_STATISTICS -> (10 <= length payload)%nat) ->
  exists s', rx_switch t payload s = Some s'.
Proof.
  intros Hc Hl.
  destruct (Z.eq_dec t (crsf_type_code CRSF_TYPE_CHANNELS)) as [->|Hnc].
  - rewrite rx_switch_channels by auto. eauto.
  - destruct (Z.eq_dec t (crsf_type_code CRSF_TYPE_LINK_STATISTICS)) as [->|Hnl].
    + rewrite rx_switch_link_statistics by auto. eauto.
    + rewrite RxFacts.rx_switch_other by assumption. eauto.
Qed.

End SwitchFacts.

(** C1, as the code has it: [rx_task] never compares the checksum.  A
    frame is handled by its type byte and payload whatever its trailing
    byte is, so a frame with a wrong checksum has the very effect of the
    frame with the right one; handling it returns (given a payload as long
    as the struct of its type), and the channels frame that follows is
    decoded from whatever state was reached. *)
Theorem C1_checksum_byte_not_compared
    (d l t c c' : Z) (p : list Z) (s : crsf_state) (d2 c2 : Z) (q : list Z) :
  length p = Z.to_nat (to_uint8 (l - 2)) ->
  (t = crsf_type_code CRSF_TYPE_CHANNELS -> (22 <= length p)%nat) ->
  (t = crsf_type_code CRSF_TYPE_LINK_STATISTICS -> (10 <= length p)%nat) ->
  length q = 22%nat ->
  exists s1 s2,
    rx_task_event (UART_DATA (frame d l t p c')) s = Some s1 /\
    rx_task_event (UART_DATA (frame d l t p c)) s = Some s1 /\
    rx_switch t p s = Some s1 /\
    rx_task_event (UART_DATA (frame d2 24 (crsf_type_code CRSF_TYPE_CHANNELS) q c2)) s1
      = Some s2 /\
    CRSF_receive_channels s2 = channels_of_bytes q /\
    CRSF_is_failsafe s2 = false.
Proof.
  intros Hp Hc Hl Hq.
  destruct (SwitchFacts.rx_switch_defined t p s Hc Hl) as [s1 Hs1].
  exists s1. eexists.
  rewrite !RxFacts.rx_task_event_frame by (try rewrite Hq; auto).
  rewrite SwitchFacts.rx_switch_channels by lia.
  rewrite <- Hq, firstn_all.
  repeat split; try assumption.
  unfold CRSF_receive_channels, reset_failsafe_timer. cbn.
  destruct (failsafe_timer s1); reflexivity.
Qed.

Lemma C1_checksum_byte_not_compared_witness :
  exists s1 s2,
    rx_task_event (UART_DATA (frame 0xC8 12 0x14 [1; 2; 3; 4; 5; 6; 7; 8; 9; 10] 0xFF))
      initial_state = Some s1 /\
    rx_task_event (UART_DATA (frame 0xC8 12 0x14 [1; 2; 3; 4; 5; 6; 7; 8; 9; 10] 0x00))
      initial_state = Some s1 /\
    rx_switch 0x14 [1; 2; 3; 4; 5; 6; 7; 8; 9; 10] initial_state = Some s1 /\
    rx_task_event
      (UART_DATA (frame 0xC8 24 (crsf_type_code CRSF_TYPE_CHANNELS) (replicate 22 0xAA) 0))
      s1 = Some s2 /\
    CRSF_receive_channels s2 = channels_of_bytes (replicate 22 0xAA) /\
    CRSF_is_failsafe s2 = false.
Proof.
  apply (C1_checksum_byte_not_compared 0xC8 12 0x14 0x00 0xFF
           [1; 2; 3; 4; 5; 6; 7; 8; 9; 10] initial_state 0xC8 0 (replicate 22 0xAA)).
  - reflexivity.
  - simpl. lia.
  - simpl. lia.
  - reflexivity.
Defined.

(** C1, counterexample to the claim as stated: the channels frame with
    payload 1, 2, .., 22 has checksum 122; with the lowest bit of that byte
    flipped the frame is still decoded: the stored channels change and the
    failsafe flag is cleared. *)
Lemma C1_bad_checksum_frame_is_decoded :
  let payload := [1; 2; 3; 4; 5; 6; 7; 8; 9; 10; 11; 12; 13; 14; 15; 16; 17; 18; 19; 20; 21; 22] in
  let type := crsf_type_code CRSF_TYPE_CHANNELS in
  let s' := set_failsafe_flag false
              (set_received_channels (channels_of_bytes payload) initial_state) in
  CRSF_send_payload CRC.crsf_table payload CRSF_DEST_FC CRSF_TYPE_CHANNELS 22 []
    = Some (tt, [frame 0xC8 24 type payload 122]) /\
  CRC.crc8 CRC.crsf_table (type :: payload) 23 = Some 122 /\
  Z.lxor 122 1 <> 122 /\
  rx_task_event (UART_DATA (frame 0xC8 24 type payload (Z.lxor 122 1))) initial_state
    = Some s' /\
  CRSF_receive_channels s' <> CRSF_receive_channels initial_state /\
  CRSF_is_failsafe initial_state = true /\
  CRSF_is_failsafe s' = false.
Proof.
  cbv zeta. split; [vm_compute; reflexivity|].
  split; [vm_compute; reflexivity|].
  split; [vm_compute; discriminate|].
  split; [vm_compute; reflexivity|].
  split; [vm_compute; discriminate|].
  split; reflexivity.
Qed.

Module FragmentFacts.

Lemma rx_task_event_zeros (chunk : list Z) (n : nat) (s : crsf_state) :
  (length chunk + n <= RX_BUF_SIZE)%nat ->
  rx_task_event (UART_DATA (chunk ++ replicate n 0)) s =
  rx_task_event (UART_DATA chunk) s.
Proof.
  intros Hlen.
  rewrite !RxFacts.rx_task_event_unfold
    by (rewrite ?length_app, ?length_replicate; lia).
  unfold seen_type, seen_payload_length.
  rewrite RxFacts.uart_read_bytes_zeros by assumption. reflexivity.
Qed.

Lemma run_chunks_zeros (chunks : list (list Z)) (s : crsf_state) :
  Forall (fun ch => (length ch <= RX_BUF_SIZE)%nat) chunks ->
  run ((fun ch => Rx (UART_DATA ch)) <$> chunks) s =
  run ((fun ch => Rx (UART_DATA (ch ++ replicate (RX_BUF_SIZE - length ch) 0))) <$> chunks) s.
Proof.
  intros Hall. revert s. induction Hall as [|ch chunks Hch Hall IH]; intros s.
  - reflexivity.
  - cbn [fmap list_fmap run step].
    rewrite rx_task_event_zeros by lia.
    destruct (rx_task_event (UART_DATA ch) s) as [s'|]; [apply IH | reflexivity].
Qed.

Lemma chunk_length_le (chunks : list (list Z)) :
  Forall (fun ch => (length ch <= length (concat chunks))%nat) chunks.
Proof.
  induction chunks as [|ch chunks IH]; constructor.
  - cbn [concat]. rewrite length_app. lia.
  - cbn [concat]. rewrite length_app.
    eapply Forall_impl; [exact IH|]. cbn. intros x Hx. lia.
Qed.

Lemma frame_length (d l t c : Z) (p : list Z) :
  length (frame d l t p c) = (length p + 4)%nat.
Proof. unfold frame. cbn [app length]. rewrite length_app. cbn [length]. lia. Qed.

End FragmentFacts.

(** C5, as the code has it: [rx_task] keeps nothing between read events.
    A well-formed frame that arrives whole in one read is decoded once, by
    its type byte and payload.  When its bytes arrive in pieces nothing is
    deferred: every read is decoded by itself, as a frame that starts at
    its first byte, the bytes it did not deliver being the zeros of the
    cleared buffer. *)
Theorem C5_each_read_decoded_alone
    (d l t c : Z) (p : list Z) (chunks : list (list Z)) (s : crsf_state) :
  length p = Z.to_nat (to_uint8 (l - 2)) ->
  concat chunks = frame d l t p c ->
  run [Rx (UART_DATA (frame d l t p c))] s = rx_switch t p s /\
  run ((fun ch => Rx (UART_DATA ch)) <$> chunks) s =
  run ((fun ch => Rx (UART_DATA (ch ++ replicate (RX_BUF_SIZE - length ch) 0))) <$> chunks) s.
Proof.
  intros Hp Hcat. split.
  - cbn [run step]. rewrite RxFacts.rx_task_event_frame by assumption.
    destruct (rx_switch t p s); reflexivity.
  - apply FragmentFacts.run_chunks_zeros.
    pose proof (FragmentFacts.chunk_length_le chunks) as Hall.
    rewrite Hcat, FragmentFacts.frame_length in Hall.
    eapply Forall_impl; [exact Hall|]. cbn. intros ch Hch.
    pose proof (to_uint8_range (l - 2)) as Hr. unfold is_uint8 in Hr.
    unfold RX_BUF_SIZE. lia.
Qed.

Lemma C5_each_read_decoded_alone_witness :
  let p := [1; 2; 3; 4; 5; 6; 7; 8; 9; 10] in
  let chunks := [[0xC8; 12; 0x14; 1; 2]; [3; 4; 5; 6; 7; 8; 9; 10; 0x5A]] in
  run [Rx (UART_DATA (frame 0xC8 12 0x14 p 0x5A))] initial_state
    = rx_switch 0x14 p initial_state /\
  run ((fun ch => Rx (UART_DATA ch)) <$> chunks) initial_state =
  run ((fun ch => Rx (UART_DATA (ch ++ replicate (RX_BUF_SIZE - length ch) 0))) <$> chunks)
      initial_state.
Proof.
  apply (C5_each_read_decoded_alone 0xC8 12 0x14 0x5A [1; 2; 3; 4; 5; 6; 7; 8; 9; 10]
           [[0xC8; 12; 0x14; 1; 2]; [3; 4; 5; 6; 7; 8; 9; 10; 0x5A]] initial_state).
  - reflexivity.
  - reflexivity.
Defined.

(** C5, counterexample to the claim as stated: the well-formed channels
    frame with payload 1, 2, .., 22 is delivered as its first 10 bytes and
    then its last 16.  The first read is decoded at once, from 7 of the 22
    payload bytes; the second read is taken for a frame of type 10 and
    dropped; the channels of the frame are never stored. *)
Lemma C5_split_frame_decoded_early :
  let payload := [1; 2; 3; 4; 5; 6; 7; 8; 9; 10; 11; 12; 13; 14; 15; 16; 17; 18; 19; 20; 21; 22] in
  let whole := frame 0xC8 24 (crsf_type_code CRSF_TYPE_CHANNELS) payload 122 in
  let chunk1 := take 10 whole in
  let chunk2 := drop 10 whole in
  let partial := set_failsafe_flag false
                   (set_received_channels
                      (channels_of_bytes ([1; 2; 3; 4; 5; 6; 7] ++ replicate 15 0))
                      initial_state) in
  CRSF_send_payload CRC.crsf_table payload CRSF_DEST_FC CRSF_TYPE_CHANNELS 22 []
    = Some (tt, [whole]) /\
  chunk1 ++ chunk2 = whole /\
  rx_task_event (UART_DATA chunk1) initial_state = Some partial /\
  partial <> initial_state /\
  run [Rx (UART_DATA chunk1); Rx (UART_DATA chunk2)] initial_state = Some partial /\
  run [Rx (UART_DATA whole)] initial_state
    = Some (set_failsafe_flag false
              (set_received_channels (channels_of_bytes payload) initial_state)) /\
  run [Rx (UART_DATA chunk1); Rx (UART_DATA chunk2)] initial_state
    <> run [Rx (UART_DATA whole)] initial_state.
Proof.
  cbv zeta. split; [vm_compute; reflexivity|].
  split; [vm_compute; reflexivity|].
  split; [vm_compute; reflexivity|].
  split; [vm_compute; discriminate|].
  split; [vm_compute; reflexivity|].
  split; [vm_compute; reflexivity|].
  vm_compute; discriminate.
Qed.

(** ** The failsafe monitor *)

Module FailsafeFacts.

Lemma payload_array_length (bytes : list Z) :
  length ((fun i => uart_read_bytes bytes !!! (i + 3)%nat)
            <$> seq 0 (Z.to_nat (seen_payload_length bytes)))
  = Z.to_nat (seen_payload_length bytes).
Proof. rewrite length_fmap, length_seq. reflexivity. Qed.

(** A quiet reception returns and touches neither the flag nor the timer. *)
Lemma quiet_rx (event : uart_event_t) (s : crsf_state) :
  quiet_step (Rx event) = true ->
  exists s', rx_task_event event s = Some s' /\
             failsafe_flag s' = failsafe_flag s /\
             failsafe_timer s' = failsafe_timer s.
Proof.
  unfold quiet_step, step_defined, is_channels_step.
  destruct event as [bytes|]; [|intros _; exists s; repeat split].
  intros H. apply andb_true_iff in H as [Hdef Hnc].
  apply andb_true_iff in Hdef as [Hlen Hsize].
  apply Nat.leb_le in Hlen. apply negb_true_iff in Hnc.
  rewrite Hnc in Hsize.
  rewrite RxFacts.rx_task_event_unfold by assumption.
  destruct (Z.eqb_spec (seen_type bytes) (crsf_type_code CRSF_TYPE_LINK_STATISTICS))
    as [Hl|Hnl].
  - rewrite Hl. rewrite SwitchFacts.rx_switch_link_statistics.
    + eexists. repeat split.
    + rewrite payload_array_length. apply Z.leb_le in Hsize. lia.
  - apply Z.eqb_neq in Hnc.
    rewrite RxFacts.rx_switch_other by assumption.
    exists s. repeat split.
Qed.

(** The reception of a channels frame returns, clears the flag and
    restarts the timer if there is one. *)
Lemma channels_rx (st : step_t) (s : crsf_state) :
  channels_step st = true ->
  exists s', step st s = Some s' /\
             failsafe_flag s' = false /\
             failsafe_timer s' =
               match failsafe_timer s with
               | Some _ => Some (Active FAILSAFE_PERIOD_MS)
               | None => None
               end.
Proof.
  unfold channels_step, step_defined, is_channels_step.
  destruct st as [[bytes|]|ms]; try (rewrite andb_false_r; discriminate).
  intros H. apply andb_true_iff in H as [Hdef Hc].
  apply andb_true_iff in Hdef as [Hlen Hsize].
  apply Nat.leb_le in Hlen. rewrite Hc in Hsize.
  apply Z.eqb_eq in Hc. apply Z.leb_le in Hsize.
  cbn [step]. rewrite RxFacts.rx_task_event_unfold by assumption.
  rewrite Hc, SwitchFacts.rx_switch_channels by (rewrite payload_array_length; lia).
  match goal with |- context [channels_of_bytes ?x] => generalize (channels_of_bytes x) end.
  intros ch. eexists. split; [reflexivity|]. split; [reflexivity|].
  unfold reset_failsafe_timer. cbn [set_received_channels failsafe_timer].
  destruct (failsafe_timer s) eqn:E; cbn; rewrite ?E; reflexivity.
Qed.

Lemma elapse_after_quiet (ms : nat) (s : crsf_state) :
  (failsafe_flag (elapse ms s), failsafe_timer (elapse ms s))
  = after_quiet ms (failsafe_flag s) (failsafe_timer s).
Proof.
  unfold elapse, after_quiet.
  destruct (failsafe_timer s) as [[|left_ms]|] eqn:E; cbn; rewrite ?E; try reflexivity.
  destruct (left_ms <=? ms)%nat; reflexivity.
Qed.

Lemma after_quiet_add (t1 t2 : nat) (flag : bool) (timer : option timer_t) :
  after_quiet t2 (after_quiet t1 flag timer).1 (after_quiet t1 flag timer).2
  = after_quiet (t1 + t2) flag timer.
Proof.
  unfold after_quiet. destruct timer as [[|left_ms]|]; try reflexivity.
  destruct (Nat.leb_spec left_ms t1) as [H1|H1]; cbn.
  - replace (left_ms <=? t1 + t2)%nat with true by (symmetry; apply Nat.leb_le; lia).
    reflexivity.
  - destruct (Nat.leb_spec (left_ms - t1) t2) as [H2|H2].
    + replace (left_ms <=? t1 + t2)%nat with true by (symmetry; apply Nat.leb_le; lia).
      reflexivity.
    + replace (left_ms <=? t1 + t2)%nat with false by (symmetry; apply Nat.leb_gt; lia).
      do 3 f_equal. lia.
Qed.

Lemma after_quiet_0 (flag : bool) (timer : option timer_t) :
  timer_wf timer -> after_quiet 0 flag timer = (flag, timer).
Proof.
  unfold timer_wf, after_quiet. intros Hwf.
  destruct timer as [[|left_ms]|]; try reflexivity.
  destruct left_ms as [|n]; [congruence|]. reflexivity.
Qed.

Lemma after_quiet_wf (t : nat) (flag : bool) (timer : option timer_t) :
  timer_wf timer -> timer_wf (after_quiet t flag timer).2.
Proof.
  unfold timer_wf, after_quiet. intros Hwf.
  destruct timer as [[|left_ms]|]; cbn; try congruence.
  destruct (Nat.leb_spec left_ms t) as [Hle|Hgt]; cbn; [congruence|].
  intros Heq. injection Heq as Heq. lia.
Qed.

(** A trace of quiet steps runs to the end; the flag and the timer after
    it depend on the time that passed only. *)
Lemma run_quiet (trace : list step_t) (s : crsf_state) :
  Forall (fun st => quiet_step st = true) trace ->
  timer_wf (failsafe_timer s) ->
  exists s', run trace s = Some s' /\
             (failsafe_flag s', failsafe_timer s')
             = after_quiet (elapsed trace) (failsafe_flag s) (failsafe_timer s).
Proof.
  intros Hq. revert s. induction Hq as [|st trace Hst Hq IH]; intros s Hwf.
  - exists s. split; [reflexivity|]. cbn [elapsed].
    rewrite after_quiet_0 by assumption. reflexivity.
  - destruct st as [event|ms].
    + destruct (quiet_rx event s Hst) as (s1 & Hs1 & Hflag & Htimer).
      destruct (IH s1) as (s' & Hrun & Hres); [rewrite Htimer; assumption|].
      exists s'. cbn [run step elapsed]. rewrite Hs1. split; [assumption|].
      rewrite Hres, Hflag, Htimer. reflexivity.
    + pose proof (elapse_after_quiet ms s) as Hel.
      assert (Hf : failsafe_flag (elapse ms s)
                   = (after_quiet ms (failsafe_flag s) (failsafe_timer s)).1)
        by (rewrite <- Hel; reflexivity).
      assert (Ht : failsafe_timer (elapse ms s)
                   = (after_quiet ms (failsafe_flag s) (failsafe_timer s)).2)
        by (rewrite <- Hel; reflexivity).
      destruct (IH (elapse ms s)) as (s' & Hrun & Hres).
      { rewrite Ht. apply after_quiet_wf. assumption. }
      exists s'. cbn [run step elapsed]. split; [assumption|].
      rewrite Hres, Hf, Ht. apply after_quiet_add.
Qed.

End FailsafeFacts.

Module LifecycleFacts.
Import FailsafeFacts.

(** From a state whose timer has just been (re)started: a quiet trace
    sets the flag exactly when it lasts for the whole period. *)
Lemma quiet_from_restart (trace : list step_t) (s : crsf_state) :
  failsafe_timer s = Some (Active FAILSAFE_PERIOD_MS) ->
  Forall (fun st => quiet_step st = true) trace ->
  exists s', run trace s = Some s' /\
             failsafe_flag s' = failsafe_flag s || (FAILSAFE_PERIOD_MS <=? elapsed trace)%nat /\
             exists t, failsafe_timer s' = Some t.
Proof.
  intros Ht Hq.
  destruct (run_quiet trace s Hq) as (s' & Hrun & Hres).
  { rewrite Ht. unfold timer_wf, FAILSAFE_PERIOD_MS. congruence. }
  exists s'. split; [assumption|].
  rewrite Ht in Hres. unfold after_quiet in Hres.
  destruct (FAILSAFE_PERIOD_MS <=? elapsed trace)%nat;
    injection Hres as Hf Htm; rewrite Hf, Htm.
  - rewrite orb_true_r. eauto.
  - rewrite orb_false_r. eauto.
Qed.

Lemma channels_from_timer (st : step_t) (s : crsf_state) (t : timer_t) :
  failsafe_timer s = Some t ->
  channels_step st = true ->
  exists s', step st s = Some s' /\
             failsafe_flag s' = false /\
             failsafe_timer s' = Some (Active FAILSAFE_PERIOD_MS).
Proof.
  intros Ht Hc. destruct (channels_rx st s Hc) as (s' & Hstep & Hf & Htm).
  rewrite Ht in Htm. eauto.
Qed.

(** Where [xTimerCreate] gave no handle: a quiet trace changes neither
    the flag nor the missing timer. *)
Lemma quiet_without_timer (trace : list step_t) (s : crsf_state) :
  failsafe_timer s = None ->
  Forall (fun st => quiet_step st = true) trace ->
  exists s', run trace s = Some s' /\
             failsafe_flag s' = failsafe_flag s /\
             failsafe_timer s' = None.
Proof.
  intros Ht Hq.
  destruct (run_quiet trace s Hq) as (s' & Hrun & Hres).
  { rewrite Ht. unfold timer_wf. congruence. }
  exists s'. split; [assumption|].
  rewrite Ht in Hres. unfold after_quiet in Hres.
  injection Hres as Hf Htm. split; assumption.
Qed.

Lemma channels_without_timer (st : step_t) (s : crsf_state) :
  failsafe_timer s = None ->
  channels_step st = true ->
  exists s', step st s = Some s' /\
             failsafe_flag s' = false /\
             failsafe_timer s' = None.
Proof.
  intros Ht Hc. destruct (channels_rx st s Hc) as (s' & Hstep & Hf & Htm).
  rewrite Ht in Htm. eauto.
Qed.

End LifecycleFacts.

(** C2, as the code has it.  The failsafe query is true before
    [CRSF_init], and after it for as long as [rx_task] has handled no
    read whose third byte is the channels type, 0x16; it is false right
    after such a read is handled, whatever the checksum of the read is.
    Where [CRSF_init] created the timer, after a time without such reads
    the query is true exactly when that time reaches the 500 ms of the
    timer, and such a read handled meanwhile restarts the 500 ms, so the
    query is false until 500 ms after that later read, also past the first
    deadline; where [xTimerCreate] gave no handle the query stays false. *)
Theorem C2_failsafe_lifecycle
    (timer_created : bool) (pre quiet1 quiet2 : list step_t) (rx1 rx2 : step_t) :
  Forall (fun st => quiet_step st = true) pre ->
  Forall (fun st => quiet_step st = true) quiet1 ->
  Forall (fun st => quiet_step st = true) quiet2 ->
  channels_step rx1 = true ->
  channels_step rx2 = true ->
  CRSF_is_failsafe initial_state = true /\
  exists s1 s2 s3 s4 s5,
    run pre (CRSF_init timer_created initial_state) = Some s1 /\
    CRSF_is_failsafe s1 = true /\
    step rx1 s1 = Some s2 /\
    CRSF_is_failsafe s2 = false /\
    run quiet1 s2 = Some s3 /\
    CRSF_is_failsafe s3 = timer_created && (FAILSAFE_PERIOD_MS <=? elapsed quiet1)%nat /\
    step rx2 s3 = Some s4 /\
    CRSF_is_failsafe s4 = false /\
    run quiet2 s4 = Some s5 /\
    CRSF_is_failsafe s5 = timer_created && (FAILSAFE_PERIOD_MS <=? elapsed quiet2)%nat.
Proof.
  intros Hpre Hq1 Hq2 Hrx1 Hrx2. split; [reflexivity|].
  unfold CRSF_is_failsafe. destruct timer_created.
  - destruct (LifecycleFacts.quiet_from_restart pre (CRSF_init true initial_state))
      as (s1 & Hrun1 & Hf1 & t1 & Ht1); [reflexivity | assumption |].
    destruct (LifecycleFacts.channels_from_timer rx1 s1 t1 Ht1 Hrx1)
      as (s2 & Hstep2 & Hf2 & Ht2).
    destruct (LifecycleFacts.quiet_from_restart quiet1 s2 Ht2 Hq1)
      as (s3 & Hrun3 & Hf3 & t3 & Ht3).
    destruct (LifecycleFacts.channels_from_timer rx2 s3 t3 Ht3 Hrx2)
      as (s4 & Hstep4 & Hf4 & Ht4).
    destruct (LifecycleFacts.quiet_from_restart quiet2 s4 Ht4 Hq2)
      as (s5 & Hrun5 & Hf5 & _).
    exists s1, s2, s3, s4, s5.
    rewrite Hf2 in Hf3. rewrite Hf4 in Hf5. cbn [orb andb] in *.
    repeat split; assumption.
  - destruct (LifecycleFacts.quiet_without_timer pre (CRSF_init false initial_state))
      as (s1 & Hrun1 & Hf1 & Ht1); [reflexivity | assumption |].
    destruct (LifecycleFacts.channels_without_timer rx1 s1 Ht1 Hrx1)
      as (s2 & Hstep2 & Hf2 & Ht2).
    destruct (LifecycleFacts.quiet_without_timer quiet1 s2 Ht2 Hq1)
      as (s3 & Hrun3 & Hf3 & Ht3).
    destruct (LifecycleFacts.channels_without_timer rx2 s3 Ht3 Hrx2)
      as (s4 & Hstep4 & Hf4 & Ht4).
    destruct (LifecycleFacts.quiet_without_timer quiet2 s4 Ht4 Hq2)
      as (s5 & Hrun5 & Hf5 & _).
    exists s1, s2, s3, s4, s5.
    rewrite Hf2 in Hf3. rewrite Hf4 in Hf5. cbn [andb].
    repeat split; assumption.
Qed.

(** A read of type 0x16 at 100 ms, quiet for 499 ms, a second such read,
    quiet for another 200 ms: 699 ms after the first one the query is
    still false; the link-statistics frame in between changes nothing. *)
Lemma C2_failsafe_lifecycle_witness :
  let chan := Rx (UART_DATA (frame 0xC8 24 0x16 (replicate 22 0x55) 0)) in
  let link := Rx (UART_DATA (frame 0xC8 12 0x14 (replicate 10 7) 0)) in
  exists s1 s2 s3 s4 s5,
    run [Elapse 100] (CRSF_init true initial_state) = Some s1 /\
    CRSF_is_failsafe s1 = true /\
    step chan s1 = Some s2 /\
    CRSF_is_failsafe s2 = false /\
    run [Elapse 250; link; Elapse 249] s2 = Some s3 /\
    CRSF_is_failsafe s3 = false /\
    step chan s3 = Some s4 /\
    CRSF_is_failsafe s4 = false /\
    run [Elapse 200] s4 = Some s5 /\
    CRSF_is_failsafe s5 = false.
Proof.
  intros chan link.
  refine (proj2 (C2_failsafe_lifecycle true [Elapse 100] [Elapse 250; link; Elapse 249]
                   [Elapse 200] chan chan _ _ _ _ _)).
  - repeat constructor.
  - repeat constructor.
  - repeat constructor.
  - vm_compute. reflexivity.
  - vm_compute. reflexivity.
Defined.

(** C2, counterexamples to the claim as stated; the timer was created.
    The channels frame with payload 1, 2, .., 22 has checksum 122 and the
    link-statistics frame below has checksum 43.  (1) The channels frame
    with checksum byte 123 is no valid frame, yet handling it clears the
    failsafe before any valid channels frame was received; the three-byte
    read 0, 24, 0x16 does the same.  (2) After a valid channels frame a
    read that holds the valid link-statistics frame followed by the valid
    channels frame arrives at 499 ms; the channels frame in it is not
    decoded, the window is not restarted, and at 500 ms the query is true. *)
Lemma C2_failsafe_follows_type_byte_not_valid_frames :
  let payload := [1; 2; 3; 4; 5; 6; 7; 8; 9; 10; 11; 12; 13; 14; 15; 16; 17; 18; 19; 20; 21; 22] in
  let stats := [60; 61; 100; 250; 0; 2; 3; 70; 99; 5] in
  let valid_chan := frame 0xC8 24 0x16 payload 122 in
  let bad_chan := frame 0xC8 24 0x16 payload 123 in
  let valid_link := frame 0xC8 12 0x14 stats 43 in
  let started := CRSF_init true initial_state in
  CRSF_send_payload CRC.crsf_table payload CRSF_DEST_FC CRSF_TYPE_CHANNELS 22 []
    = Some (tt, [valid_chan]) /\
  CRSF_send_payload CRC.crsf_table stats CRSF_DEST_FC CRSF_TYPE_LINK_STATISTICS 10 []
    = Some (tt, [valid_link]) /\
  CRC.crc8 CRC.crsf_table (0x16 :: payload) 23 = Some 122 /\
  CRSF_is_failsafe started = true /\
  CRSF_is_failsafe <$> run [Rx (UART_DATA bad_chan)] started = Some false /\
  CRSF_is_failsafe <$> run [Rx (UART_DATA [0; 24; 0x16])] started = Some false /\
  CRSF_is_failsafe <$> run [Rx (UART_DATA valid_chan); Elapse 499] started = Some false /\
  CRSF_is_failsafe <$>
    run [Rx (UART_DATA valid_chan); Elapse 499;
         Rx (UART_DATA (valid_link ++ valid_chan)); Elapse 1] started = Some true.
Proof.
  cbv zeta. split; [vm_compute; reflexivity|].
  split; [vm_compute; reflexivity|].
  split; [vm_compute; reflexivity|].
  split; [reflexivity|].
  split; [vm_compute; reflexivity|].
  split; [vm_compute; reflexivity|].
  split; vm_compute; reflexivity.
Qed.

(** ** The send functions and the caller's struct *)

Module SendFacts.

Lemma crc8_loop_returns (tbl data : list Z) (crc : Z) (len : nat) :
  (len <= length data)%nat -> exists c, CRC.crc8_loop tbl crc data len = Some c.
Proof.
  revert crc data. induction len as [|len IH]; intros crc data Hlen.
  - eexists. reflexivity.
  - destruct data as [|b data]; [cbn [length] in Hlen; lia|].
    cbn [CRC.crc8_loop]. apply IH. cbn [length] in Hlen. lia.
Qed.

(** [CRSF_send_payload] returns, having written one packet, whenever the
    object behind [payload] has the bytes that it is asked to copy. *)
Lemma CRSF_send_payload_returns (tbl mem : list Z) dest type (n : Z) (log : uart_log) :
  to_uint8 n <= Z.of_nat (length mem) ->
  exists packet, CRSF_send_payload tbl mem dest type n log = Some (tt, log ++ [packet]).
Proof.
  intros Hmem. unfold CRSF_send_payload.
  pose proof (to_uint8_range n) as Hn. unfold is_uint8 in Hn.
  replace (Z.of_nat (length mem) <? to_uint8 n) with false
    by (symmetry; apply Z.ltb_ge; lia).
  match goal with
  | |- context [CRC.crc8 tbl ?data ?len] =>
      destruct (crc8_loop_returns tbl data 0 (Z.to_nat (to_uint8 len))) as [c Hc]
  end.
  - pose proof (to_uint8_range (to_uint8 n + 1)) as Hl. unfold is_uint8 in Hl.
    rewrite length_drop. unfold memcpy.
    rewrite !length_app, !length_take, length_drop, !length_insert, length_replicate.
    destruct (Z.eq_dec (to_uint8 n) 255) as [E|E].
    + rewrite E. change (to_uint8 (255 + 1)) with 0. lia.
    + unfold to_uint8 at 1. rewrite Z.mod_small by lia. lia.
  - unfold CRC.crc8. rewrite Hc. unfold uart_write_bytes. eexists. reflexivity.
Qed.

Lemma le_bytes_length n z : length (le_bytes n z) = n.
Proof. revert z. induction n as [|n IH]; intros z; [reflexivity|]. cbn. rewrite IH. reflexivity. Qed.

Lemma temp_values_length (vals : list Z) :
  length (vals ≫= le_bytes 2) = (2 * length vals)%nat.
Proof.
  induction vals as [|v vals IH]; [reflexivity|].
  cbn [mbind list_bind]. change (length (le_bytes 2 v ++ (vals ≫= le_bytes 2)) = (2 * length (v :: vals))%nat).
  rewrite length_app, IH, le_bytes_length. cbn [length]. lia.
Qed.

(** The conversion loop of [CRSF_send_temp_data] swaps the entries
    [i .. i+n-1] of the caller's array and leaves the others. *)
Lemma temp_swap_loop_lookup (n i : nat) (vals : list Z) :
  (i + n <= length vals)%nat ->
  exists out,
    temp_swap_loop n i vals = Some out /\
    length out = length vals /\
    forall j, out !! j =
              if (i <=? j)%nat && (j <? i + n)%nat
              then (fun v => to_int16 (__bswap16 v)) <$> vals !! j
              else vals !! j.
Proof.
  revert i vals. induction n as [|n IH]; intros i vals Hlen.
  - exists vals. split; [reflexivity|]. split; [reflexivity|]. intros j.
    destruct (Nat.leb_spec i j), (Nat.ltb_spec j (i + 0)); try reflexivity; lia.
  - cbn [temp_swap_loop].
    destruct (lookup_lt_is_Some_2 vals i) as [v Hv]; [lia|]. rewrite Hv.
    destruct (IH (S i) (<[i := to_int16 (__bswap16 v)]> vals)) as (out & Hout & Hl & Hj).
    { rewrite length_insert. lia. }
    exists out. split; [assumption|]. rewrite length_insert in Hl. split; [assumption|].
    intros j. rewrite Hj.
    destruct (Nat.eq_dec j i) as [->|Hne].
    + rewrite list_lookup_insert_eq by lia. rewrite Hv.
      destruct (Nat.leb_spec (S i) i), (Nat.leb_spec i i), (Nat.ltb_spec i (i + S n));
        try lia; reflexivity.
    + rewrite list_lookup_insert_ne by congruence.
      destruct (Nat.leb_spec (S i) j), (Nat.ltb_spec j (S i + n)),
               (Nat.leb_spec i j), (Nat.ltb_spec j (i + S n)); try lia; reflexivity.
Qed.

Lemma temp_payload_size_le (n : Z) :
  0 <= n -> to_uint8 (to_uint32 (1 + to_uint32 (n * 2))) <= 1 + 2 * n.
Proof.
  intros Hn. unfold to_uint8, to_uint32.
  destruct (Z_le_gt_dec n 127) as [Hs|Hb].
  - rewrite (Z.mod_small (n * 2)) by lia.
    rewrite (Z.mod_small (1 + n * 2)) by lia.
    rewrite Z.mod_small by lia. lia.
  - pose proof (Z.mod_pos_bound ((1 + (n * 2) mod 4294967296) mod 4294967296) 256). lia.
Qed.

End SendFacts.

(** C9, as the code has it: the battery, GPS and temperature send
    functions convert through the caller's pointer.  When the call returns,
    the caller's struct holds the byte-swapped values in its multi-byte
    fields (voltage and current; latitude, longitude, groundspeed, heading
    and altitude; the first [num_temps] temperatures) and the same values as
    before in its one-byte fields and in the temperatures past [num_temps]. *)
Theorem C9_send_converts_in_place
    (crc8_table : list Z) (dest : crsf_dest_t) (log : uart_log)
    (b : crsf_battery_t) (g : crsf_gps_t) (t : crsf_temp_t) (num_temps : Z) :
  0 <= num_temps <= Z.of_nat (length (temp_value t)) ->
  (exists b' log',
      CRSF_send_battery_data crc8_table dest b log = Some (b', log') /\
      voltage b' = __bswap16 (voltage b) /\
      current b' = __bswap16 (current b) /\
      remaining b' = remaining b) /\
  (exists g' log',
      CRSF_send_gps_data crc8_table dest g log = Some (g', log') /\
      latitude g' = to_int32 (__bswap32 (latitude g)) /\
      longitude g' = to_int32 (__bswap32 (longitude g)) /\
      groundspeed g' = __bswap16 (groundspeed g) /\
      heading g' = __bswap16 (heading g) /\
      altitude g' = __bswap16 (altitude g) /\
      satellites g' = satellites g) /\
  (exists t' log',
      CRSF_send_temp_data crc8_table dest t num_temps log = Some (t', log') /\
      temp_source_id t' = temp_source_id t /\
      length (temp_value t') = length (temp_value t) /\
      forall j, temp_value t' !! j =
                if (j <? Z.to_nat num_temps)%nat
                then (fun v => to_int16 (__bswap16 v)) <$> temp_value t !! j
                else temp_value t !! j).
Proof.
  intros Hn. split; [|split].
  - unfold CRSF_send_battery_data, io_bind.
    match goal with
    | |- context [CRSF_send_payload crc8_table ?m dest ?ty ?n log] =>
        destruct (SendFacts.CRSF_send_payload_returns crc8_table m dest ty n log)
          as [packet Hp]; [reflexivity | rewrite Hp]
    end.
    unfold io_ret. eexists. eexists. split; [reflexivity|]. repeat split.
  - unfold CRSF_send_gps_data, io_bind.
    match goal with
    | |- context [CRSF_send_payload crc8_table ?m dest ?ty ?n log] =>
        destruct (SendFacts.CRSF_send_payload_returns crc8_table m dest ty n log)
          as [packet Hp]; [reflexivity | rewrite Hp]
    end.
    unfold io_ret. eexists. eexists. split; [reflexivity|]. repeat split.
  - unfold CRSF_send_temp_data.
    destruct (SendFacts.temp_swap_loop_lookup (Z.to_nat num_temps) 0 (temp_value t))
      as (out & Hout & Hlen & Hj); [lia|].
    rewrite Hout. unfold io_bind.
    match goal with
    | |- context [CRSF_send_payload crc8_table ?m dest ?ty ?n log] =>
        destruct (SendFacts.CRSF_send_payload_returns crc8_table m dest ty n log)
          as [packet Hp]; [| rewrite Hp]
    end.
    { unfold temp_bytes. cbn [temp_source_id temp_value].
      rewrite length_app, SendFacts.le_bytes_length, SendFacts.temp_values_length, Hlen.
      pose proof (SendFacts.temp_payload_size_le num_temps).
      lia. }
    unfold io_ret. eexists. eexists. split; [reflexivity|].
    cbn [temp_source_id temp_value]. split; [reflexivity|]. split; [assumption|].
    intros j. rewrite Hj. cbn [Nat.add Nat.leb andb]. reflexivity.
Qed.

Lemma C9_send_converts_in_place_witness :
  (exists b' log',
      CRSF_send_battery_data CRC.crsf_table CRSF_DEST_FC (mk_battery 1 2 3 50) []
        = Some (b', log') /\
      voltage b' = 256 /\ current b' = 512 /\ remaining b' = 50) /\
  (exists t' log',
      CRSF_send_temp_data CRC.crsf_table CRSF_DEST_FC (mk_temp 0 [250; -50; 7]) 2 []
        = Some (t', log') /\
      temp_value t' !! 0%nat = Some (-1536) /\
      temp_value t' !! 1%nat = Some (-12545) /\
      temp_value t' !! 2%nat = Some 7).
Proof.
  destruct (C9_send_converts_in_place CRC.crsf_table CRSF_DEST_FC []
              (mk_battery 1 2 3 50) (mk_gps 0 0 0 0 0 0) (mk_temp 0 [250; -50; 7]) 2)
    as ((b' & l1 & Hb & Hv & Hc & Hr) & _ & (t' & l2 & Ht & _ & _ & Hj)).
  { simpl. lia. }
  split.
  - exists b', l1. split; [exact Hb|]. split; [exact Hv|]. split; [exact Hc | exact Hr].
  - exists t', l2. split; [exact Ht|].
    split; [exact (Hj 0%nat)|]. split; [exact (Hj 1%nat) | exact (Hj 2%nat)].
Defined.

(** C9, counterexample to the claim as stated: after sending a battery
    struct with voltage 1 and current 2, the caller's struct holds voltage
    256 and current 512. *)
Lemma C9_battery_struct_overwritten :
  let before := mk_battery 1 2 3 50 in
  exists after log',
    CRSF_send_battery_data CRC.crsf_table CRSF_DEST_FC before [] = Some (after, log') /\
    voltage after = 256 /\
    current after = 512 /\
    voltage after <> voltage before /\
    after <> before.
Proof.
  cbv zeta. eexists. eexists. split; [vm_compute; reflexivity|].
  split; [reflexivity|]. split; [reflexivity|].
  split; [vm_compute; discriminate | discriminate].
Qed.

(** ** Battery capacity on the wire *)

Module BatteryFacts.

Lemma bswap16_value x :
  __bswap16 x = (x mod 256) * 256 + (x / 256) mod 256.
Proof.
  unfold __bswap16, to_uint16. set (u := x mod 65536).
  change 0xff with 255. rewrite !land_255_mod.
  rewrite Z.shiftr_div_pow2 by lia.
  pose proof (Z.mod_pos_bound (u / 2 ^ 8) 256) as B.
  rewrite lor_shiftl_add by lia.
  change (2 ^ 8) with 256. subst u. clear. Z.div_mod_to_equations. lia.
Qed.

(** The three bytes that the capacity field has in memory after
    [capacity = __bswap16(capacity) << 8]: the first is always 0. *)
Lemma capacity_field_bytes cap :
  le_bytes 3 ((Z.shiftl (__bswap16 cap) 8) mod 2 ^ 24) =
  [0; (cap / 256) mod 256; cap mod 256].
Proof.
  rewrite bswap16_value, Z.shiftl_mul_pow2 by lia.
  change (2 ^ 8) with 256. change (2 ^ 24) with 16777216.
  cbn [le_bytes].
  f_equal; [|f_equal; [|f_equal]]; clear; Z.div_mod_to_equations; lia.
Qed.

(** For every battery struct, the frame carries the capacity with a zero
    first byte: it is the big-endian capacity only below 65536. *)
Lemma battery_capacity_on_wire (tbl : list Z) dest (b : crsf_battery_t) (log : uart_log) :
  exists after packet,
    CRSF_send_battery_data tbl dest b log = Some (after, log ++ [packet]) /\
    battery_wire_capacity packet = [0; (capacity b / 256) mod 256; capacity b mod 256].
Proof.
  unfold CRSF_send_battery_data, io_bind.
  rewrite CRSF_send_payload_packet; [|lia|cbn; lia].
  unfold io_ret. eexists. eexists. split; [reflexivity|].
  unfold battery_wire_capacity, battery_bytes.
  cbn [voltage current capacity remaining].
  rewrite capacity_field_bytes. reflexivity.
Qed.

End BatteryFacts.

(** C7, the code at the failing input: for a battery of capacity 0x010203
    the frame carries the capacity bytes 00 02 03, where the big-endian
    24-bit capacity is 01 02 03; the frame is the one that is sent for the
    capacity 0x000203. *)
Theorem C7_battery_capacity_high_byte_lost :
  let b := mk_battery 168 25 0x010203 50 in
  let packet := [0xC8; 10; 0x08; 0; 168; 0; 25; 0; 2; 3; 50; 220] in
  (exists after, CRSF_send_battery_data CRC.crsf_table CRSF_DEST_FC b []
                 = Some (after, [packet])) /\
  (exists after, CRSF_send_battery_data CRC.crsf_table CRSF_DEST_FC
                   (mk_battery 168 25 0x000203 50) []
                 = Some (after, [packet])) /\
  battery_wire_capacity packet = [0; 2; 3] /\
  be24 (capacity b) = [1; 2; 3] /\
  battery_wire_capacity packet <> be24 (capacity b).
Proof.
  cbv zeta. split; [eexists; vm_compute; reflexivity|].
  split; [eexists; vm_compute; reflexivity|].
  split; [reflexivity|]. split; [reflexivity|].
  vm_compute. discriminate.
Qed.

(** ** Entry counts of RPM and temperature frames *)

Module CapFacts.

Lemma rpm_convert_loop_lookup (n i : nat) (vals : list Z) (out : list int24_t) :
  (i + n <= length vals)%nat -> (i + n <= length out)%nat ->
  exists res,
    rpm_convert_loop n i vals out = Some res /\
    length res = length out /\
    forall j, res !! j =
              if (i <=? j)%nat && (j <? i + n)%nat
              then (fun v => int32_to_int24 (bswap24 v)) <$> vals !! j
              else out !! j.
Proof.
  revert i out. induction n as [|n IH]; intros i out Hv Ho.
  - exists out. split; [reflexivity|]. split; [reflexivity|]. intros j.
    destruct (Nat.leb_spec i j), (Nat.ltb_spec j (i + 0)); try reflexivity; lia.
  - cbn [rpm_convert_loop].
    destruct (lookup_lt_is_Some_2 vals i) as [v Hvi]; [lia|]. rewrite Hvi.
    destruct (IH (S i) (<[i := int32_to_int24 (bswap24 v)]> out)) as (res & Hres & Hl & Hj).
    { lia. }
    { rewrite length_insert. lia. }
    exists res. split; [assumption|]. rewrite length_insert in Hl. split; [assumption|].
    intros j. rewrite Hj.
    destruct (Nat.eq_dec j i) as [->|Hne].
    + rewrite list_lookup_insert_eq by lia. rewrite Hvi.
      destruct (Nat.leb_spec (S i) i), (Nat.leb_spec i i), (Nat.ltb_spec i (i + S n));
        try lia; reflexivity.
    + rewrite list_lookup_insert_ne by congruence.
      destruct (Nat.leb_spec (S i) j), (Nat.ltb_spec j (S i + n)),
               (Nat.leb_spec i j), (Nat.ltb_spec j (i + S n)); try lia; reflexivity.
Qed.

(** The conversion loop fills the packet with the converted first [n]
    values of the caller's array. *)
Lemma rpm_convert_loop_take (n : nat) (vals : list Z) (z : int24_t) :
  (n <= length vals)%nat ->
  rpm_convert_loop n 0 vals (replicate n z) =
  Some ((fun v => int32_to_int24 (bswap24 v)) <$> take n vals).
Proof.
  intros Hn.
  destruct (rpm_convert_loop_lookup n 0 vals (replicate n z)) as (res & Hres & Hl & Hj);
    [lia | rewrite length_replicate; lia |].
  rewrite Hres. f_equal. apply list_eq. intros j.
  rewrite Hj, list_lookup_fmap. cbn [Nat.leb andb Nat.add].
  destruct (Nat.ltb_spec j n) as [Hlt|Hge].
  - rewrite lookup_take_lt by assumption. reflexivity.
  - rewrite lookup_take_ge by assumption.
    cbn. apply lookup_ge_None. rewrite length_replicate. lia.
Qed.

Lemma rpm_values_bytes (vals : list Z) :
  ((fun v => int32_to_int24 (bswap24 v)) <$> vals) ≫= int24_bytes = vals ≫= rpm_pack.
Proof.
  induction vals as [|v vals IH]; [reflexivity|].
  cbn [fmap list_fmap mbind list_bind]. f_equal. exact IH.
Qed.

Lemma rpm_pack_bytes_length (vals : list Z) :
  length (vals ≫= rpm_pack) = (3 * length vals)%nat.
Proof.
  induction vals as [|v vals IH]; [reflexivity|].
  cbn [mbind list_bind].
  change (length (rpm_pack v ++ (vals ≫= rpm_pack)) = (3 * length (v :: vals))%nat).
  rewrite length_app, IH. cbn [length rpm_pack int24_bytes]. lia.
Qed.

(** [CRSF_send_rpm_values] with a buffer from [malloc]: the frame holds the
    first [min num_values 19] values of the caller, each as its triplet,
    and nothing of the values beyond; the call returns normally. *)
Lemma rpm_send_capped (tbl : list Z) dest (source_id : Z) (vals : list Z)
    (num_values : Z) (log : uart_log) :
  0 <= num_values ->
  Z.min num_values 19 <= Z.of_nat (length vals) ->
  let kept := take (Z.to_nat (Z.min num_values 19)) vals in
  exists checksum,
    CRSF_send_rpm_values tbl true dest source_id vals num_values log =
    Some (tt, log ++ [[crsf_dest_code dest; 3 * Z.min num_values 19 + 3;
                       crsf_type_code CRSF_TYPE_RPM; to_uint8 source_id]
                        ++ (kept ≫= rpm_pack) ++ [checksum]]).
Proof.
  intros Hn Hlen kept. unfold CRSF_send_rpm_values.
  assert (Hcap : (if 19 <? num_values then 19 else num_values) = Z.min num_values 19).
  { destruct (Z.ltb_spec 19 num_values); lia. }
  rewrite Hcap. set (k := Z.min num_values 19) in *. cbn [negb].
  rewrite rpm_convert_loop_take by lia.
  assert (Hkept : length kept = Z.to_nat k).
  { unfold kept. rewrite length_take. lia. }
  rewrite CRSF_send_payload_packet.
  - eexists. do 3 f_equal.
    unfold rpm_bytes. cbn [rpm_source_id rpm_value le_bytes].
    rewrite rpm_values_bytes. fold kept.
    rewrite take_ge.
    + unfold to_uint8 at 1. rewrite Z.mod_mod by lia.
      replace (1 + k * 3 + 2) with (3 * k + 3) by lia. reflexivity.
    + cbn [app length]. rewrite rpm_pack_bytes_length, Hkept. lia.
  - lia.
  - unfold rpm_bytes. cbn [rpm_source_id rpm_value le_bytes].
    rewrite rpm_values_bytes. fold kept.
    cbn [app length]. rewrite rpm_pack_bytes_length, Hkept. lia.
Qed.

End CapFacts.

Module RPMWire.

(** Triplet [i] of the bytes of the packed values. *)
Lemma packed_triplet (kept : list Z) (i : nat) (v : Z) (rest : list Z) :
  kept !! i = Some v ->
  take 3 (drop (3 * i) ((kept ≫= rpm_pack) ++ rest)) = rpm_pack v.
Proof.
  revert i. induction kept as [|w kept IH]; intros i Hi; [discriminate|].
  rewrite bind_cons, <- app_assoc.
  destruct i as [|i].
  - injection Hi as ->. reflexivity.
  - replace (3 * S i)%nat with (3 + 3 * i)%nat by lia.
    change (rpm_pack w) with [byte0 (int32_to_int24 (bswap24 w));
                              byte1 (int32_to_int24 (bswap24 w));
                              byte2 (int32_to_int24 (bswap24 w))].
    cbn [app Nat.add drop]. apply IH. exact Hi.
Qed.

End RPMWire.

(** C6: for every value [v] in the 24-bit range [-8388608, 8388607] that
    [CRSF_send_rpm_values] sends (entry [i] of the caller's array, below
    the count and the cap of 19), the frame carries at the place of entry
    [i] the 24-bit two's complement of [v], most significant byte first,
    and unpacking that triplet with sign extension from bit 23 gives [v]
    back; the helper pair [int32_to_int24] / [int24_to_int32] is a round
    trip on [v] as well. *)
Theorem C6_rpm_int24_roundtrip
    (tbl : list Z) (dest : crsf_dest_t) (source_id : Z) (rpm_values : list Z)
    (num_values : Z) (log : uart_log) (i : nat) (v : Z) :
  0 <= num_values ->
  Z.min num_values 19 <= Z.of_nat (length rpm_values) ->
  rpm_values !! i = Some v ->
  Z.of_nat i < Z.min num_values 19 ->
  in_int24_range v ->
  exists packet,
    CRSF_send_rpm_values tbl true dest source_id rpm_values num_values log
      = Some (tt, log ++ [packet]) /\
    rpm_wire_triplet packet i = be24 v /\
    spec_rpm_unpack (rpm_wire_triplet packet i) = Some v /\
    int24_to_int32 (int32_to_int24 v) = v.
Proof.
  intros Hn Hlen Hi Hcap Hv.
  destruct (CapFacts.rpm_send_capped tbl dest source_id rpm_values num_values log Hn Hlen)
    as [checksum Hsend].
  eexists. split; [exact Hsend|].
  assert (Htrip : rpm_wire_triplet
                    ([crsf_dest_code dest; 3 * Z.min num_values 19 + 3;
                      crsf_type_code CRSF_TYPE_RPM; to_uint8 source_id]
                       ++ (take (Z.to_nat (Z.min num_values 19)) rpm_values ≫= rpm_pack)
                       ++ [checksum]) i = rpm_pack v).
  { unfold rpm_wire_triplet. cbn [app Nat.add drop].
    apply RPMWire.packed_triplet.
    rewrite lookup_take_lt by lia. exact Hi. }
  rewrite Htrip. split; [apply RPMFacts.rpm_pack_be24|].
  split; [apply RPMFacts.spec_rpm_unpack_pack | apply RPMFacts.int24_roundtrip]; assumption.
Qed.

Lemma C6_rpm_int24_roundtrip_witness :
  let values := [-1000; 8388607; -8388608] in
  exists packet,
    CRSF_send_rpm_values CRC.crsf_table true CRSF_DEST_FC 0 values 3 []
      = Some (tt, [] ++ [packet]) /\
    rpm_wire_triplet packet 1 = be24 8388607 /\
    spec_rpm_unpack (rpm_wire_triplet packet 1) = Some 8388607 /\
    int24_to_int32 (int32_to_int24 8388607) = 8388607.
Proof.
  intros values.
  apply (C6_rpm_int24_roundtrip CRC.crsf_table CRSF_DEST_FC 0 values 3 [] 1 8388607).
  - lia.
  - simpl. lia.
  - reflexivity.
  - simpl. lia.
  - unfold in_int24_range. lia.
Defined.

(** C8, the code at the failing input: [CRSF_send_temp_data] with 25
    entries returns normally and sends a frame of 25 entries (length byte
    53): the count is not capped at 20 and the call is not rejected.
    [CRSF_send_rpm_values] with 20 entries sends the frame of the first 19
    and returns normally. *)
Theorem C8_temperature_count_not_capped :
  let temps := mk_temp 1 (Z.of_nat <$> seq 1 25) in
  let temp_packet :=
    [0xC8; 53; 0x0D; 1] ++ ((Z.of_nat <$> seq 1 25) ≫= (fun v => [0; v])) ++ [140] in
  let rpm_packet :=
    [0xC8; 60; 0x0C; 1] ++ ((Z.of_nat <$> seq 1 19) ≫= (fun v => [0; 0; v])) ++ [35] in
  (exists after, CRSF_send_temp_data CRC.crsf_table CRSF_DEST_FC temps 25 []
                 = Some (after, [temp_packet])) /\
  temp_entry_count temp_packet = 25 /\
  CRSF_send_rpm_values CRC.crsf_table true CRSF_DEST_FC 1 (Z.of_nat <$> seq 1 20) 20 []
    = Some (tt, [rpm_packet]) /\
  CRSF_send_rpm_values CRC.crsf_table true CRSF_DEST_FC 1 (Z.of_nat <$> seq 1 19) 19 []
    = Some (tt, [rpm_packet]) /\
  rpm_entry_count rpm_packet = 19.
Proof.
  cbv zeta. split; [eexists; vm_compute; reflexivity|].
  split; [vm_compute; reflexivity|].
  split; [vm_compute; reflexivity|].
  split; vm_compute; reflexivity.
Qed.

(** * Further properties of the code *)

(** ** The checksum *)

Module CRCMore.
Import CRC CRCFacts CRC8Facts.

Lemma spec_round_range poly c : is_uint8 poly -> is_uint8 (spec_round poly c).
Proof. intros Hp. rewrite <- crc_shift_spec_round by assumption. apply crc_shift_range. Qed.

Lemma iter_spec_round_range n poly c :
  is_uint8 poly -> is_uint8 c -> is_uint8 (Nat.iter n (spec_round poly) c).
Proof.
  intros Hp Hc. induction n as [|n IH]; [assumption|].
  cbn [Nat.iter]. apply spec_round_range. assumption.
Qed.

Lemma reference_fold_range poly (data : list Z) (crc : Z) :
  is_uint8 poly -> is_uint8 crc -> Forall is_uint8 data ->
  is_uint8 (fold_left (fun crc b => Nat.iter 8 (spec_round poly) (Z.lxor crc b)) data crc).
Proof.
  intros Hp Hc Hd. revert crc Hc.
  induction Hd as [|b data Hb Hd IH]; intros crc Hc; [assumption|].
  cbn [fold_left]. apply IH. apply iter_spec_round_range; [assumption|].
  apply lxor_uint8; assumption.
Qed.

Lemma reference_crc8_range poly (data : list Z) :
  is_uint8 poly -> Forall is_uint8 data -> is_uint8 (reference_crc8 poly data).
Proof.
  intros Hp Hd. apply reference_fold_range; [assumption | unfold is_uint8; lia | assumption].
Qed.

Lemma spec_table_entry_0 poly : spec_table_entry poly 0 = 0.
Proof. reflexivity. Qed.

Lemma lxor_cancel_l c x y : Z.lxor c x = Z.lxor c y -> x = y.
Proof.
  intros H. apply (f_equal (Z.lxor c)) in H.
  rewrite <- !Z.lxor_assoc, Z.lxor_nilpotent, !Z.lxor_0_l in H. exact H.
Qed.

Lemma lxor_cancel_r c x y : Z.lxor x c = Z.lxor y c -> x = y.
Proof. rewrite !(Z.lxor_comm _ c). apply lxor_cancel_l. Qed.

Lemma testbit7_byte c : is_uint8 c -> Z.testbit c 7 = (128 <=? c).
Proof. unfold is_uint8. intros Hc. apply (testbit_top c 7); simpl; lia. Qed.

Lemma odd_lxor a b : Z.odd (Z.lxor a b) = xorb (Z.odd a) (Z.odd b).
Proof. rewrite <- !Z.bit0_odd. apply Z.lxor_spec. Qed.

Lemma odd_double_mod c : Z.odd ((2 * c) mod 256) = false.
Proof.
  rewrite <- Z.negb_even. apply negb_false_iff.
  apply Z.even_spec. exists (c mod 128). Z.div_mod_to_equations. lia.
Qed.

(** With an odd polynomial a round loses nothing: the low bit of its
    result tells whether the top bit was set. *)
Lemma spec_round_inj poly a b :
  Z.odd poly = true -> is_uint8 a -> is_uint8 b ->
  spec_round poly a = spec_round poly b -> a = b.
Proof.
  intros Hodd Ha Hb. unfold spec_round.
  rewrite (testbit7_byte a Ha), (testbit7_byte b Hb).
  unfold is_uint8 in Ha, Hb.
  destruct (Z.leb_spec 128 a) as [Ha7|Ha7], (Z.leb_spec 128 b) as [Hb7|Hb7]; intros H.
  - apply lxor_cancel_r in H. revert H. Z.div_mod_to_equations. lia.
  - apply (f_equal Z.odd) in H.
    rewrite odd_lxor, !odd_double_mod, Hodd in H. discriminate.
  - apply (f_equal Z.odd) in H.
    rewrite odd_lxor, !odd_double_mod, Hodd in H. discriminate.
  - revert H. Z.div_mod_to_equations. lia.
Qed.

Lemma iter_spec_round_inj n poly a b :
  is_uint8 poly -> Z.odd poly = true -> is_uint8 a -> is_uint8 b ->
  Nat.iter n (spec_round poly) a = Nat.iter n (spec_round poly) b -> a = b.
Proof.
  intros Hp Hodd Ha Hb. induction n as [|n IH]; [trivial|].
  cbn [Nat.iter]. intros H. apply IH.
  apply (spec_round_inj poly); try assumption; apply iter_spec_round_range; assumption.
Qed.

(** Two different running checksums stay different over the same bytes. *)
Lemma reference_fold_inj poly (data : list Z) (c1 c2 : Z) :
  is_uint8 poly -> Z.odd poly = true -> Forall is_uint8 data ->
  is_uint8 c1 -> is_uint8 c2 -> c1 <> c2 ->
  fold_left (fun crc b => Nat.iter 8 (spec_round poly) (Z.lxor crc b)) data c1 <>
  fold_left (fun crc b => Nat.iter 8 (spec_round poly) (Z.lxor crc b)) data c2.
Proof.
  intros Hp Hodd Hd. revert c1 c2.
  induction Hd as [|b data Hb Hd IH]; intros c1 c2 H1 H2 Hne; [assumption|].
  cbn [fold_left]. apply IH.
  - apply iter_spec_round_range; [assumption | apply lxor_uint8; assumption].
  - apply iter_spec_round_range; [assumption | apply lxor_uint8; assumption].
  - intros H. apply iter_spec_round_inj in H; try assumption;
      try (apply lxor_uint8; assumption).
    apply lxor_cancel_r in H. contradiction.
Qed.

End CRCMore.

(** X1: with the table of any polynomial, the checksum of a byte sequence
    is a byte, and the checksum of the sequence followed by its checksum
    is 0: a frame body with its trailing checksum byte sums to zero. *)
Theorem X1_crc8_of_data_and_checksum_is_zero (poly : Z) (data : list Z) :
  is_uint8 poly -> Forall is_uint8 data -> (length data <= 254)%nat ->
  let table := CRC.generate_CRC poly CRC.crc8_table_init in
  exists c,
    CRC.crc8 table data (Z.of_nat (length data)) = Some c /\
    is_uint8 c /\
    CRC.crc8 table (data ++ [c]) (Z.of_nat (length data) + 1) = Some 0.
Proof.
  intros Hp Hd Hlen table. subst table.
  exists (CRC.reference_crc8 poly data).
  pose proof (CRCMore.reference_crc8_range poly data Hp Hd) as Hc.
  split; [|split; [assumption|]].
  - rewrite <- (app_nil_r data) at 1.
    apply CRC8Facts.crc8_generated_reference; [assumption | assumption | lia].
  - replace (Z.of_nat (length data) + 1)
      with (Z.of_nat (length (data ++ [CRC.reference_crc8 poly data])))
      by (rewrite length_app; cbn [length]; lia).
    rewrite <- (app_nil_r (data ++ [CRC.reference_crc8 poly data])) at 1.
    rewrite CRC8Facts.crc8_generated_reference.
    + f_equal. unfold CRC.reference_crc8 at 1. rewrite fold_left_app. cbn [fold_left].
      fold (CRC.reference_crc8 poly data). rewrite Z.lxor_nilpotent. reflexivity.
    + assumption.
    + apply Forall_app. split; [assumption|]. constructor; [assumption | constructor].
    + rewrite length_app. cbn [length]. lia.
Qed.

Lemma X1_crc8_of_data_and_checksum_is_zero_witness :
  exists c,
    CRC.crc8 (CRC.generate_CRC 0xd5 CRC.crc8_table_init) [0x16; 1; 2; 3] 4 = Some c /\
    is_uint8 c /\
    CRC.crc8 (CRC.generate_CRC 0xd5 CRC.crc8_table_init) ([0x16; 1; 2; 3] ++ [c]) (4 + 1)
      = Some 0.
Proof.
  apply (X1_crc8_of_data_and_checksum_is_zero 0xd5 [0x16; 1; 2; 3]).
  - unfold is_uint8; lia.
  - repeat constructor; unfold is_uint8; lia.
  - simpl; lia.
Defined.

(** X2: with the table of an odd polynomial (0xD5 is one), two byte
    sequences that differ in exactly one byte have different checksums:
    [crc8] detects every corruption confined to a single byte. *)
Theorem X2_crc8_detects_single_byte_change (poly : Z) (pre suf : list Z) (x y : Z) :
  is_uint8 poly -> Z.odd poly = true ->
  Forall is_uint8 pre -> Forall is_uint8 suf -> is_uint8 x -> is_uint8 y ->
  x <> y ->
  (length (pre ++ x :: suf) <= 255)%nat ->
  let table := CRC.generate_CRC poly CRC.crc8_table_init in
  let len := Z.of_nat (length (pre ++ x :: suf)) in
  exists c1 c2,
    CRC.crc8 table (pre ++ x :: suf) len = Some c1 /\
    CRC.crc8 table (pre ++ y :: suf) len = Some c2 /\
    c1 <> c2.
Proof.
  intros Hp Hodd Hpre Hsuf Hx Hy Hne Hlen table len. subst table len.
  exists (CRC.reference_crc8 poly (pre ++ x :: suf)),
         (CRC.reference_crc8 poly (pre ++ y :: suf)).
  assert (Hlen' : length (pre ++ y :: suf) = length (pre ++ x :: suf)).
  { rewrite !length_app. reflexivity. }
  split; [|split].
  - rewrite <- (app_nil_r (pre ++ x :: suf)) at 1.
    apply CRC8Facts.crc8_generated_reference; [assumption | | assumption].
    apply Forall_app. split; [assumption | constructor; assumption].
  - rewrite <- Hlen'. rewrite <- (app_nil_r (pre ++ y :: suf)) at 1.
    apply CRC8Facts.crc8_generated_reference; [assumption | | lia].
    apply Forall_app. split; [assumption | constructor; assumption].
  - unfold CRC.reference_crc8. rewrite !fold_left_app. cbn [fold_left].
    set (c := fold_left _ pre 0).
    assert (Hc : is_uint8 c).
    { apply CRCMore.reference_fold_range; [assumption | unfold is_uint8; lia | assumption]. }
    apply CRCMore.reference_fold_inj; try assumption.
    + apply CRCMore.iter_spec_round_range; [assumption | apply lxor_uint8; assumption].
    + apply CRCMore.iter_spec_round_range; [assumption | apply lxor_uint8; assumption].
    + intros H. apply CRCMore.iter_spec_round_inj in H; try assumption;
        try (apply lxor_uint8; assumption).
      apply CRCMore.lxor_cancel_l in H. contradiction.
Qed.

Lemma X2_crc8_detects_single_byte_change_witness :
  exists c1 c2,
    CRC.crc8 (CRC.generate_CRC 0xd5 CRC.crc8_table_init) ([0x16; 1] ++ 2 :: [3; 4]) 5
      = Some c1 /\
    CRC.crc8 (CRC.generate_CRC 0xd5 CRC.crc8_table_init) ([0x16; 1] ++ 130 :: [3; 4]) 5
      = Some c2 /\
    c1 <> c2.
Proof.
  apply (X2_crc8_detects_single_byte_change 0xd5 [0x16; 1] [3; 4] 2 130).
  - unfold is_uint8; lia.
  - reflexivity.
  - repeat constructor; unfold is_uint8; lia.
  - repeat constructor; unfold is_uint8; lia.
  - unfold is_uint8; lia.
  - unfold is_uint8; lia.
  - lia.
  - simpl; lia.
Defined.

(** X3: [generate_CRC] overwrites all 256 entries: the table it leaves
    depends on the polynomial only, not on what the array held before
    (zeros at start-up, or the table of an earlier call), and every entry
    is a byte. *)
Theorem X3_generate_CRC_overwrites_table (poly : Z) (old1 old2 : list Z) :
  is_uint8 poly -> length old1 = 256%nat -> length old2 = 256%nat ->
  CRC.generate_CRC poly old1 = CRC.generate_CRC poly old2 /\
  Forall is_uint8 (CRC.generate_CRC poly old1).
Proof.
  intros Hp H1 H2.
  assert (Hlook : forall old, length old = 256%nat -> forall i,
             CRC.generate_CRC poly old !! i =
             if (i <? 256)%nat then Some (CRC.spec_table_entry poly (Z.of_nat i)) else None).
  { intros old Hold i. destruct (Nat.ltb_spec i 256) as [Hlt|Hge].
    - rewrite <- (Nat2Z.id i) at 1.
      apply CRCFacts.generate_CRC_lookup; [assumption | unfold is_uint8; lia | assumption].
    - apply lookup_ge_None. rewrite CRCFacts.generate_CRC_length. lia. }
  split.
  - apply list_eq. intros i. rewrite !Hlook by assumption. reflexivity.
  - apply Forall_lookup. intros i v Hv. rewrite Hlook in Hv by assumption.
    destruct (Nat.ltb_spec i 256); [|discriminate].
    injection Hv as <-. apply CRC8Facts.spec_table_entry_range; [assumption|].
    unfold is_uint8; lia.
Qed.

Lemma X3_generate_CRC_overwrites_table_witness :
  CRC.generate_CRC 0xd5 CRC.crc8_table_init
  = CRC.generate_CRC 0xd5 (CRC.generate_CRC 0x07 CRC.crc8_table_init) /\
  Forall is_uint8 (CRC.generate_CRC 0xd5 CRC.crc8_table_init).
Proof.
  apply (X3_generate_CRC_overwrites_table 0xd5 CRC.crc8_table_init
           (CRC.generate_CRC 0x07 CRC.crc8_table_init)).
  - unfold is_uint8; lia.
  - reflexivity.
  - vm_compute. reflexivity.
Defined.

(** ** The receive task, further *)

Module RxMore.

(** A frame followed by more bytes in the same read. *)
Lemma rx_task_event_frame_more (d l t c : Z) (p more : list Z) (s : crsf_state) :
  length p = Z.to_nat (to_uint8 (l - 2)) ->
  (length (frame d l t p c ++ more) <= RX_BUF_SIZE)%nat ->
  rx_task_event (UART_DATA (frame d l t p c ++ more)) s = rx_switch t p s.
Proof.
  intros Hp Hlen.
  rewrite RxFacts.rx_task_event_unfold by assumption.
  unfold seen_type, seen_payload_length.
  rewrite RxFacts.uart_read_bytes_eq by assumption.
  unfold frame. cbn [app]. cbn [lookup_total list_lookup_total].
  rewrite <- Hp. rewrite <- !(app_assoc p). rewrite RxFacts.payload_copy. reflexivity.
Qed.

(** What one turn of the loop can do to the state. *)
Lemma rx_switch_cases (t : Z) (payload : list Z) (s s' : crsf_state) :
  rx_switch t payload s = Some s' ->
  (exists obj, s' = set_failsafe_flag false
                      (reset_failsafe_timer
                         (set_received_channels (channels_of_bytes obj) s))) \/
  (exists obj, s' = set_received_link_statistics (link_statistics_of_bytes obj) s) \/
  s' = s.
Proof.
  unfold rx_switch, read_object.
  destruct (t =? crsf_type_code CRSF_TYPE_CHANNELS).
  - destruct (length payload <? 22)%nat; [discriminate|].
    intros H. injection H as <-. left. eexists. reflexivity.
  - destruct (t =? crsf_type_code CRSF_TYPE_LINK_STATISTICS).
    + destruct (length payload <? 10)%nat; [discriminate|].
      intros H. injection H as <-. right. left. eexists. reflexivity.
    + intros H. injection H as <-. right. right. reflexivity.
Qed.

Lemma rx_task_event_cases (event : uart_event_t) (s s' : crsf_state) :
  rx_task_event event s = Some s' ->
  (exists obj, s' = set_failsafe_flag false
                      (reset_failsafe_timer
                         (set_received_channels (channels_of_bytes obj) s))) \/
  (exists obj, s' = set_received_link_statistics (link_statistics_of_bytes obj) s) \/
  s' = s.
Proof.
  destruct event as [bytes|].
  - unfold rx_task_event.
    destruct (RX_BUF_SIZE <? length bytes)%nat; [discriminate|].
    apply rx_switch_cases.
  - intros H. injection H as <-. right. right. reflexivity.
Qed.

Lemma reset_failsafe_timer_channels (s : crsf_state) :
  received_channels (reset_failsafe_timer s) = received_channels s.
Proof. unfold reset_failsafe_timer. destruct (failsafe_timer s); reflexivity. Qed.

Lemma reset_failsafe_timer_flag (s : crsf_state) :
  failsafe_flag (reset_failsafe_timer s) = failsafe_flag s.
Proof. unfold reset_failsafe_timer. destruct (failsafe_timer s); reflexivity. Qed.

Lemma reset_failsafe_timer_link (s : crsf_state) :
  received_link_statistics (reset_failsafe_timer s) = received_link_statistics s.
Proof. unfold reset_failsafe_timer. destruct (failsafe_timer s); reflexivity. Qed.

Lemma reset_failsafe_timer_timer (s : crsf_state) :
  failsafe_timer (reset_failsafe_timer s) =
  match failsafe_timer s with
  | Some _ => Some (Active FAILSAFE_PERIOD_MS)
  | None => None
  end.
Proof.
  unfold reset_failsafe_timer. destruct (failsafe_timer s) eqn:E; [reflexivity | exact E].
Qed.

Lemma elapse_channels (ms : nat) (s : crsf_state) :
  received_channels (elapse ms s) = received_channels s.
Proof.
  unfold elapse. destruct (failsafe_timer s) as [[|left_ms]|]; try reflexivity.
  destruct (left_ms <=? ms)%nat; reflexivity.
Qed.

Lemma channels_of_bytes_wf (bs : list Z) : channels_wf (channels_of_bytes bs).
Proof.
  unfold channels_wf, channels_of_bytes. split.
  - rewrite length_fmap, length_seq. reflexivity.
  - apply Forall_fmap, Forall_forall. intros k _. unfold compose.
    change 0x7FF with (Z.ones 11). rewrite Z.land_ones by lia.
    pose proof (Z.mod_pos_bound (Z.shiftr (le_combine bs) (11 * Z.of_nat k)) (2 ^ 11)
                  ltac:(lia)) as B.
    change (2 ^ 11) with 2048 in *. change (Z.ones 11) with 2047. lia.
Qed.

Lemma step_channels_wf (st : step_t) (s s' : crsf_state) :
  channels_wf (received_channels s) -> step st s = Some s' ->
  channels_wf (received_channels s').
Proof.
  intros Hwf. destruct st as [event|ms]; cbn [step].
  - intros H. apply rx_task_event_cases in H as [[obj ->]|[[obj ->]| ->]].
    + cbn [received_channels set_failsafe_flag].
      rewrite reset_failsafe_timer_channels. apply channels_of_bytes_wf.
    + exact Hwf.
    + exact Hwf.
  - intros H. injection H as <-. rewrite elapse_channels. exact Hwf.
Qed.

End RxMore.

(** X4: what [CRSF_send_payload] writes, [rx_task] reads back: for a
    payload of up to 253 bytes the packet has payload length + 4 bytes, and
    a read that delivers this packet reaches the switch with the type byte
    and exactly the payload bytes that were sent. *)
Theorem X4_sent_frame_is_read_back
    (tbl mem : list Z) (dest : crsf_dest_t) (type : crsf_type_t) (n : Z)
    (log : uart_log) (s : crsf_state) :
  0 <= n <= 253 -> n <= Z.of_nat (length mem) ->
  exists packet,
    CRSF_send_payload tbl mem dest type n log = Some (tt, log ++ [packet]) /\
    Z.of_nat (length packet) = n + 4 /\
    rx_task_event (UART_DATA packet) s
      = rx_switch (crsf_type_code type) (take (Z.to_nat n) mem) s.
Proof.
  intros Hn Hmem. rewrite CRSF_send_payload_packet by assumption.
  eexists. split; [reflexivity|].
  assert (Hlen : length (take (Z.to_nat n) mem) = Z.to_nat n) by (rewrite length_take; lia).
  split.
  - cbn [app length]. rewrite length_app, Hlen. cbn [length]. lia.
  - apply (RxFacts.rx_task_event_frame (crsf_dest_code dest) (n + 2) (crsf_type_code type)).
    rewrite Hlen. replace (n + 2 - 2) with n by lia.
    rewrite to_uint8_id by (unfold is_uint8; lia). reflexivity.
Qed.

Lemma X4_sent_frame_is_read_back_witness :
  exists packet,
    CRSF_send_payload CRC.crsf_table (replicate 22 0x55) CRSF_DEST_FC CRSF_TYPE_CHANNELS 22 []
      = Some (tt, [] ++ [packet]) /\
    Z.of_nat (length packet) = 22 + 4 /\
    rx_task_event (UART_DATA packet) initial_state
      = rx_switch (crsf_type_code CRSF_TYPE_CHANNELS)
          (take (Z.to_nat 22) (replicate 22 0x55)) initial_state.
Proof.
  apply (X4_sent_frame_is_read_back CRC.crsf_table (replicate 22 0x55) CRSF_DEST_FC
           CRSF_TYPE_CHANNELS 22 [] initial_state).
  - lia.
  - simpl. lia.
Defined.

(** X5: bytes that follow a frame in the same read are never looked at:
    the read has the effect of the frame alone, so a second frame
    delivered in the same read is not decoded. *)
Theorem X5_bytes_after_frame_are_dropped
    (d l t c : Z) (p more : list Z) (s : crsf_state) :
  length p = Z.to_nat (to_uint8 (l - 2)) ->
  (length (frame d l t p c ++ more) <= RX_BUF_SIZE)%nat ->
  rx_task_event (UART_DATA (frame d l t p c ++ more)) s
  = rx_task_event (UART_DATA (frame d l t p c)) s.
Proof.
  intros Hp Hlen.
  rewrite RxMore.rx_task_event_frame_more by assumption.
  rewrite RxFacts.rx_task_event_frame by assumption. reflexivity.
Qed.

Lemma X5_bytes_after_frame_are_dropped_witness :
  rx_task_event
    (UART_DATA (frame 0xC8 12 0x14 (replicate 10 7) 0
                  ++ frame 0xC8 24 0x16 (replicate 22 0x55) 0)) initial_state
  = rx_task_event (UART_DATA (frame 0xC8 12 0x14 (replicate 10 7) 0)) initial_state.
Proof.
  apply (X5_bytes_after_frame_are_dropped 0xC8 12 0x14 0 (replicate 10 7)
           (frame 0xC8 24 0x16 (replicate 22 0x55) 0) initial_state).
  - reflexivity.
  - unfold RX_BUF_SIZE. simpl. lia.
Defined.

(** X6: the first byte of a read, the destination, is extracted but
    never used: two reads that differ in it alone have the same effect. *)
Theorem X6_destination_byte_is_not_used (d1 d2 : Z) (rest : list Z) (s : crsf_state) :
  rx_task_event (UART_DATA (d1 :: rest)) s = rx_task_event (UART_DATA (d2 :: rest)) s.
Proof.
  unfold rx_task_event. cbn [length].
  destruct (RX_BUF_SIZE <? S (length rest))%nat eqn:E; [reflexivity|].
  apply Nat.ltb_ge in E.
  rewrite !RxFacts.uart_read_bytes_eq by (cbn [length]; assumption).
  cbn [app length]. cbn [lookup_total list_lookup_total].
  f_equal. apply list_fmap_ext. intros i k _.
  replace (k + 3)%nat with (S (k + 2)) by lia. reflexivity.
Qed.

(** X7: a read of fewer than three bytes (an empty read too) changes
    nothing: the type byte is then a zero of the cleared buffer, which is
    no case of the switch. *)
Theorem X7_short_read_changes_nothing (bytes : list Z) (s : crsf_state) :
  (length bytes < 3)%nat -> rx_task_event (UART_DATA bytes) s = Some s.
Proof.
  intros Hlen.
  rewrite RxFacts.rx_task_event_unfold by (unfold RX_BUF_SIZE; lia).
  assert (Htype : seen_type bytes = 0).
  { unfold seen_type. rewrite RxFacts.uart_read_bytes_eq by (unfold RX_BUF_SIZE; lia).
    destruct bytes as [|a [|b [|c bytes]]]; [reflexivity | reflexivity | reflexivity |].
    cbn [length] in Hlen. lia. }
  rewrite Htype. apply RxFacts.rx_switch_other; cbn; lia.
Qed.

Lemma X7_short_read_changes_nothing_witness :
  rx_task_event (UART_DATA [0xC8; 24]) initial_state = Some initial_state.
Proof. apply (X7_short_read_changes_nothing [0xC8; 24] initial_state). simpl. lia. Defined.

(** X8: a link-statistics frame with at least ten payload bytes stores
    the struct made of its first ten payload bytes and touches nothing
    else: the stored channels, the failsafe flag and the failsafe timer are
    as before, so link statistics alone never end a failsafe. *)
Theorem X8_link_statistics_frame_effect (d l c : Z) (p : list Z) (s : crsf_state) :
  length p = Z.to_nat (to_uint8 (l - 2)) ->
  (10 <= length p)%nat ->
  exists s',
    rx_task_event
      (UART_DATA (frame d l (crsf_type_code CRSF_TYPE_LINK_STATISTICS) p c)) s = Some s' /\
    CRSF_get_link_statistics s' = link_statistics_of_bytes (take 10 p) /\
    -128 <= up_snr (CRSF_get_link_statistics s') <= 127 /\
    -128 <= down_snr (CRSF_get_link_statistics s') <= 127 /\
    CRSF_receive_channels s' = CRSF_receive_channels s /\
    CRSF_is_failsafe s' = CRSF_is_failsafe s /\
    failsafe_timer s' = failsafe_timer s.
Proof.
  intros Hp Hlen.
  rewrite RxFacts.rx_task_event_frame by assumption.
  rewrite SwitchFacts.rx_switch_link_statistics by assumption.
  eexists. split; [reflexivity|].
  unfold CRSF_get_link_statistics, CRSF_receive_channels, CRSF_is_failsafe.
  cbn [received_link_statistics set_received_link_statistics received_channels
       failsafe_flag failsafe_timer].
  split; [reflexivity|].
  unfold link_statistics_of_bytes. cbn [up_snr down_snr]. unfold to_int8.
  split; [|split; [|repeat split]].
  - pose proof (Z.mod_pos_bound (take 10 p !!! 3%nat + 128) 256 ltac:(lia)). lia.
  - pose proof (Z.mod_pos_bound (take 10 p !!! 9%nat + 128) 256 ltac:(lia)). lia.
Qed.

Lemma X8_link_statistics_frame_effect_witness :
  exists s',
    rx_task_event
      (UART_DATA (frame 0xC8 12 (crsf_type_code CRSF_TYPE_LINK_STATISTICS)
                    [60; 61; 100; 250; 0; 2; 3; 70; 99; 5] 0))
      (CRSF_init true initial_state) = Some s' /\
    CRSF_get_link_statistics s'
      = link_statistics_of_bytes (take 10 [60; 61; 100; 250; 0; 2; 3; 70; 99; 5]) /\
    -128 <= up_snr (CRSF_get_link_statistics s') <= 127 /\
    -128 <= down_snr (CRSF_get_link_statistics s') <= 127 /\
    CRSF_receive_channels s' = CRSF_receive_channels (CRSF_init true initial_state) /\
    CRSF_is_failsafe s' = CRSF_is_failsafe (CRSF_init true initial_state) /\
    failsafe_timer s' = failsafe_timer (CRSF_init true initial_state).
Proof.
  apply (X8_link_statistics_frame_effect 0xC8 12 0
           [60; 61; 100; 250; 0; 2; 3; 70; 99; 5] (CRSF_init true initial_state)).
  - reflexivity.
  - simpl. lia.
Defined.

(** X9: whatever is received, the stored channels are sixteen values
    between 0 and 2047: every state reached from start-up by receive
    events and passing time keeps this. *)
Theorem X9_stored_channels_stay_11_bit
    (timer_created : bool) (trace : list step_t) (s' : crsf_state) :
  run trace (CRSF_init timer_created initial_state) = Some s' ->
  channels_wf (CRSF_receive_channels s').
Proof.
  assert (Hinit : channels_wf (received_channels (CRSF_init timer_created initial_state))).
  { split; [reflexivity|]. cbn. repeat constructor; lia. }
  revert Hinit. generalize (CRSF_init timer_created initial_state). intros s.
  revert s. induction trace as [|st trace IH]; intros s Hwf Hrun.
  - injection Hrun as <-. exact Hwf.
  - cbn [run] in Hrun. destruct (step st s) as [s1|] eqn:Hstep; [|discriminate].
    apply (IH s1); [|assumption].
    apply (RxMore.step_channels_wf st s s1); assumption.
Qed.

Lemma X9_stored_channels_stay_11_bit_witness :
  channels_wf
    (CRSF_receive_channels
       (set_failsafe_flag false
          (reset_failsafe_timer
             (set_received_channels (channels_of_bytes (replicate 22 0xFF))
                (CRSF_init true initial_state))))).
Proof.
  apply (X9_stored_channels_stay_11_bit true
           [Rx (UART_DATA (frame 0xC8 24 0x16 (replicate 22 0xFF) 0))]).
  vm_compute. reflexivity.
Defined.

(** ** The failsafe monitor, further *)

Module WatchdogFacts.

Lemma step_watchdog_inv (st : step_t) (s s' : crsf_state) :
  watchdog_inv s -> step st s = Some s' -> watchdog_inv s'.
Proof.
  intros Hinv. destruct st as [event|ms]; cbn [step].
  - intros H. apply RxMore.rx_task_event_cases in H as [[obj ->]|[[obj ->]| ->]].
    + unfold watchdog_inv in *. cbn [failsafe_timer set_failsafe_flag].
      rewrite RxMore.reset_failsafe_timer_timer. cbn [failsafe_timer set_received_channels].
      destruct (failsafe_timer s); [|contradiction].
      unfold FAILSAFE_PERIOD_MS. lia.
    + exact Hinv.
    + exact Hinv.
  - intros H. injection H as <-. unfold watchdog_inv, elapse in *.
    destruct (failsafe_timer s) as [[|left_ms]|] eqn:E; cbn; rewrite ?E; try assumption.
    destruct (Nat.leb_spec left_ms ms); cbn; [reflexivity | lia].
Qed.

Lemma run_watchdog_inv (trace : list step_t) (s s' : crsf_state) :
  watchdog_inv s -> run trace s = Some s' -> watchdog_inv s'.
Proof.
  revert s. induction trace as [|st trace IH]; intros s Hinv Hrun.
  - injection Hrun as <-. exact Hinv.
  - cbn [run] in Hrun. destruct (step st s) as [s1|] eqn:Hstep; [|discriminate].
    apply (IH s1); [|assumption]. apply (step_watchdog_inv st s s1); assumption.
Qed.

(** Without a timer nothing ever sets the flag. *)
Lemma step_without_timer (st : step_t) (s s' : crsf_state) :
  failsafe_timer s = None -> failsafe_flag s = false -> step st s = Some s' ->
  failsafe_timer s' = None /\ failsafe_flag s' = false.
Proof.
  intros Ht Hf. destruct st as [event|ms]; cbn [step].
  - intros H. apply RxMore.rx_task_event_cases in H as [[obj ->]|[[obj ->]| ->]].
    + cbn [failsafe_timer failsafe_flag set_failsafe_flag].
      rewrite RxMore.reset_failsafe_timer_timer. cbn [failsafe_timer set_received_channels].
      rewrite Ht. split; reflexivity.
    + split; assumption.
    + split; assumption.
  - intros H. injection H as <-. unfold elapse. rewrite Ht. split; assumption.
Qed.

Lemma run_without_timer (trace : list step_t) (s s' : crsf_state) :
  failsafe_timer s = None -> failsafe_flag s = false -> run trace s = Some s' ->
  failsafe_timer s' = None /\ failsafe_flag s' = false.
Proof.
  revert s. induction trace as [|st trace IH]; intros s Ht Hf Hrun.
  - injection Hrun as <-. split; assumption.
  - cbn [run] in Hrun. destruct (step st s) as [s1|] eqn:Hstep; [|discriminate].
    destruct (step_without_timer st s s1 Ht Hf Hstep) as [Ht1 Hf1].
    apply (IH s1); assumption.
Qed.

End WatchdogFacts.

(** X10: after [CRSF_init] has created the timer, every state reached by
    receive events and passing time has the watchdog in order (a dormant
    timer only with the failsafe flag set, an active one with at most
    500 ms left); hence from any such state 500 ms without a channels frame
    end with the failsafe flag set, whatever was received before. *)
Theorem X10_silence_always_ends_in_failsafe
    (trace quiet : list step_t) (s : crsf_state) :
  run trace (CRSF_init true initial_state) = Some s ->
  Forall (fun st => quiet_step st = true) quiet ->
  (FAILSAFE_PERIOD_MS <= elapsed quiet)%nat ->
  watchdog_inv s /\
  exists s', run quiet s = Some s' /\ CRSF_is_failsafe s' = true.
Proof.
  intros Hrun Hq Ht.
  assert (Hinv : watchdog_inv s).
  { apply (WatchdogFacts.run_watchdog_inv trace (CRSF_init true initial_state)).
    - unfold watchdog_inv. cbn [CRSF_init failsafe_timer set_failsafe_timer].
      unfold FAILSAFE_PERIOD_MS. lia.
    - assumption. }
  split; [assumption|].
  destruct (FailsafeFacts.run_quiet quiet s Hq) as (s' & Hs' & Hres).
  { unfold timer_wf. unfold watchdog_inv in Hinv.
    destruct (failsafe_timer s) as [[|left_ms]|]; try congruence.
    intros H. injection H as ->. lia. }
  exists s'. split; [assumption|].
  unfold CRSF_is_failsafe. unfold watchdog_inv in Hinv. unfold after_quiet in Hres.
  destruct (failsafe_timer s) as [[|left_ms]|]; [| |contradiction].
  - injection Hres as Hf _. congruence.
  - replace (left_ms <=? elapsed quiet)%nat with true in Hres
      by (symmetry; apply Nat.leb_le; lia).
    injection Hres as Hf _. exact Hf.
Qed.

Lemma X10_silence_always_ends_in_failsafe_witness :
  let chan := Rx (UART_DATA (frame 0xC8 24 0x16 (replicate 22 0x55) 0)) in
  let link := Rx (UART_DATA (frame 0xC8 12 0x14 (replicate 10 7) 0)) in
  exists s,
    run [chan; Elapse 300; chan; Elapse 499] (CRSF_init true initial_state) = Some s /\
    CRSF_is_failsafe s = false /\
    watchdog_inv s /\
    exists s', run [link; Elapse 500] s = Some s' /\ CRSF_is_failsafe s' = true.
Proof.
  intros chan link. eexists. split; [vm_compute; reflexivity|].
  split; [reflexivity|].
  apply (X10_silence_always_ends_in_failsafe [chan; Elapse 300; chan; Elapse 499]
           [link; Elapse 500]).
  - vm_compute. reflexivity.
  - repeat constructor.
  - vm_compute. lia.
Defined.

(** X11: when [xTimerCreate] returned no handle, the watchdog does not
    exist: after the first channels frame the failsafe flag is cleared and
    nothing that is received, and no amount of time, sets it again. *)
Theorem X11_no_timer_no_failsafe (rx1 : step_t) (trace : list step_t) (s' : crsf_state) :
  channels_step rx1 = true ->
  run (rx1 :: trace) (CRSF_init false initial_state) = Some s' ->
  CRSF_is_failsafe s' = false /\ failsafe_timer s' = None.
Proof.
  intros Hrx Hrun. cbn [run] in Hrun.
  destruct (FailsafeFacts.channels_rx rx1 (CRSF_init false initial_state) Hrx)
    as (s1 & Hstep & Hf & Ht).
  rewrite Hstep in Hrun. cbn [CRSF_init failsafe_timer set_failsafe_timer] in Ht.
  destruct (WatchdogFacts.run_without_timer trace s1 s' Ht Hf Hrun) as [Ht' Hf'].
  split; assumption.
Qed.

Lemma X11_no_timer_no_failsafe_witness :
  CRSF_is_failsafe
    (set_failsafe_flag false
       (set_received_channels (channels_of_bytes (replicate 22 0x55))
          (CRSF_init false initial_state))) = false /\
  failsafe_timer
    (set_failsafe_flag false
       (set_received_channels (channels_of_bytes (replicate 22 0x55))
          (CRSF_init false initial_state))) = None.
Proof.
  apply (X11_no_timer_no_failsafe
           (Rx (UART_DATA (frame 0xC8 24 0x16 (replicate 22 0x55) 0)))
           [Elapse 500; Elapse 4000]).
  - vm_compute. reflexivity.
  - vm_compute. reflexivity.
Defined.

(** ** Byte order of the telemetry frames *)

Module ByteOrder.

Lemma be_bytes_length n z : length (be_bytes n z) = n.
Proof. unfold be_bytes. rewrite length_rev. apply SendFacts.le_bytes_length. Qed.

Lemma bswap32_value x :
  __bswap32 x =
  (x mod 256) * 16777216 + ((x / 256) mod 256) * 65536
  + ((x / 65536) mod 256) * 256 + (x / 16777216) mod 256.
Proof.
  unfold __bswap32, to_uint32. set (u := x mod 4294967296).
  change 0xff with 255. rewrite !land_255_mod.
  rewrite !Z.shiftr_div_pow2 by lia.
  pose proof (Z.mod_pos_bound u 256 ltac:(lia)) as B0.
  pose proof (Z.mod_pos_bound (u / 2 ^ 8) 256 ltac:(lia)) as B1.
  pose proof (Z.mod_pos_bound (u / 2 ^ 16) 256 ltac:(lia)) as B2.
  pose proof (Z.mod_pos_bound (u / 2 ^ 24) 256 ltac:(lia)) as B3.
  rewrite (Z.shiftl_mul_pow2 ((u / 2 ^ 8) mod 256) 16) by lia.
  rewrite (lor_shiftl_add (u mod 256) _ 24) by lia.
  rewrite (lor_shiftl_add ((u / 2 ^ 16) mod 256) _ 8) by lia.
  replace (u mod 256 * 2 ^ 24 + (u / 2 ^ 8) mod 256 * 2 ^ 16)
    with (Z.shiftl (u mod 256 * 256 + (u / 2 ^ 8) mod 256) 16)
    by (rewrite Z.shiftl_mul_pow2 by lia; lia).
  rewrite lor_shiftl_add by lia.
  change (2 ^ 8) with 256. change (2 ^ 16) with 65536. change (2 ^ 24) with 16777216.
  assert (E1 : (u / 256) mod 256 = (x / 256) mod 256)
    by (subst u; clear; Z.div_mod_to_equations; lia).
  assert (E2 : (u / 65536) mod 256 = (x / 65536) mod 256)
    by (subst u; clear; Z.div_mod_to_equations; lia).
  assert (E3 : (u / 16777216) mod 256 = (x / 16777216) mod 256)
    by (subst u; clear; Z.div_mod_to_equations; lia).
  assert (E0 : u mod 256 = x mod 256)
    by (subst u; clear; Z.div_mod_to_equations; lia).
  rewrite E0, E1, E2, E3. lia.
Qed.

(** In memory (least significant byte first) a swapped 16-bit field
    reads as the value most significant byte first. *)
Lemma le_bytes_bswap16 x : le_bytes 2 (__bswap16 x) = be_bytes 2 x.
Proof.
  rewrite BatteryFacts.bswap16_value. unfold be_bytes. cbn [le_bytes rev app].
  f_equal; [|f_equal]; clear; Z.div_mod_to_equations; lia.
Qed.

Lemma le_bytes_to_int16 y : le_bytes 2 (to_int16 y) = le_bytes 2 y.
Proof.
  unfold to_int16. cbn [le_bytes].
  f_equal; [|f_equal]; clear; Z.div_mod_to_equations; lia.
Qed.

Lemma le_bytes_bswap32 x : le_bytes 4 (to_int32 (__bswap32 x)) = be_bytes 4 x.
Proof.
  rewrite bswap32_value. unfold be_bytes, to_int32. cbn [le_bytes rev app].
  rewrite !Z.div_div by lia.
  change (256 * 256) with 65536. change (65536 * 256) with 16777216.
  change (256 * 65536) with 16777216.
  set (b0 := x mod 256). set (b1 := (x / 256) mod 256).
  set (b2 := (x / 65536) mod 256). set (b3 := (x / 16777216) mod 256).
  assert (H0 : 0 <= b0 < 256) by (apply Z.mod_pos_bound; lia).
  assert (H1 : 0 <= b1 < 256) by (apply Z.mod_pos_bound; lia).
  assert (H2 : 0 <= b2 < 256) by (apply Z.mod_pos_bound; lia).
  assert (H3 : 0 <= b3 < 256) by (apply Z.mod_pos_bound; lia).
  clearbody b0 b1 b2 b3.
  f_equal; [|f_equal; [|f_equal; [|f_equal]]]; Z.div_mod_to_equations; lia.
Qed.

End ByteOrder.

Module SendMore.

(** [CRSF_send_payload] for every [uint8_t] payload length: the length
    byte and the number of checksummed bytes are reduced modulo 256. *)
Lemma CRSF_send_payload_any (tbl mem : list Z) dest type (n : Z) (log : uart_log) :
  0 <= n <= 255 -> n <= Z.of_nat (length mem) ->
  exists c,
    CRC.crc8 tbl (crsf_type_code type :: take (Z.to_nat n) mem ++ [0]) (n + 1) = Some c /\
    CRSF_send_payload tbl mem dest type n log =
    Some (tt, log ++ [[crsf_dest_code dest; to_uint8 (n + 2); crsf_type_code type]
                        ++ take (Z.to_nat n) mem ++ [c]]).
Proof.
  intros Hn Hmem. unfold CRSF_send_payload.
  rewrite (to_uint8_id n) by (unfold is_uint8; lia).
  rewrite crsf_dest_code_uint8, crsf_type_code_uint8.
  replace (Z.of_nat (length mem) <? n) with false by (symmetry; apply Z.ltb_ge; lia).
  remember (Z.to_nat n) as k eqn:Hkn.
  assert (Hk : length (take k mem) = k) by (rewrite length_take; lia).
  replace (Z.to_nat (n + 4)) with (3 + (k + 1))%nat by lia.
  replace (Z.to_nat (n + 3)) with (3 + k)%nat by lia.
  cbn [Nat.add replicate].
  match goal with
  | |- context [memcpy ?p _ _ _] =>
      change p with (crsf_dest_code dest :: to_uint8 (n + 2) :: crsf_type_code type
                       :: replicate (k + 1) 0)
  end.
  unfold memcpy. cbn [take drop Nat.add app].
  rewrite take_0, drop_replicate. cbn [app].
  replace (k + 1 - k)%nat with 1%nat by lia.
  cbn [replicate].
  destruct (SendFacts.crc8_loop_returns tbl (crsf_type_code type :: take k mem ++ [0]) 0
              (Z.to_nat (to_uint8 (n + 1)))) as [c Hc].
  { cbn [length]. rewrite length_app, Hk. cbn [length].
    pose proof (to_uint8_range (n + 1)) as Hr. unfold is_uint8 in Hr.
    destruct (Z.eq_dec n 255) as [->|Hne]; [change (to_uint8 (255 + 1)) with 0; lia|].
    rewrite to_uint8_id by (unfold is_uint8; lia). lia. }
  exists c. unfold CRC.crc8. rewrite Hc. split; [reflexivity|].
  assert (Hins : forall x a b d,
             <[S (S (S k)) := x]> (a :: b :: d :: take k mem ++ [0])
             = a :: b :: d :: take k mem ++ [x]).
  { intros x a b d.
    change (a :: b :: d :: take k mem ++ [0]) with ([a; b; d] ++ (take k mem ++ [0])).
    rewrite insert_app_r_alt by (cbn [length]; lia).
    cbn [length]. replace (S (S (S k)) - 3)%nat with k by lia.
    rewrite insert_app_r_alt by lia. rewrite Hk, Nat.sub_diag. reflexivity. }
  rewrite Hins. unfold uart_write_bytes. do 3 f_equal.
  rewrite take_ge; [reflexivity|].
  cbn [length]. rewrite length_app, Hk. cbn [length]. lia.
Qed.

(** The argument is a [uint8_t]: only its value modulo 256 counts. *)
Lemma CRSF_send_payload_uint8 (tbl mem : list Z) dest type (n : Z) :
  CRSF_send_payload tbl mem dest type n = CRSF_send_payload tbl mem dest type (to_uint8 n).
Proof.
  unfold CRSF_send_payload.
  assert (H : to_uint8 (to_uint8 n) = to_uint8 n) by (unfold to_uint8; apply Z.mod_mod; lia).
  rewrite H. reflexivity.
Qed.

End SendMore.

(** X12: the frame that [CRSF_send_gps_data] writes has length byte 17,
    type 0x02 and a payload of 15 bytes: latitude and longitude as four
    bytes each and groundspeed, heading and altitude as two bytes each,
    all most significant byte first, then the satellites byte. *)
Theorem X12_gps_frame_is_big_endian
    (tbl : list Z) (dest : crsf_dest_t) (g : crsf_gps_t) (log : uart_log) :
  exists after checksum,
    CRSF_send_gps_data tbl dest g log =
    Some (after,
          log ++ [[crsf_dest_code dest; 17; 0x02]
                    ++ (be_bytes 4 (latitude g) ++ be_bytes 4 (longitude g)
                        ++ be_bytes 2 (groundspeed g) ++ be_bytes 2 (heading g)
                        ++ be_bytes 2 (altitude g) ++ [satellites g mod 256])
                    ++ [checksum]]).
Proof.
  unfold CRSF_send_gps_data, io_bind.
  rewrite CRSF_send_payload_packet; [|lia|cbn; lia].
  unfold io_ret. eexists. eexists. do 4 f_equal.
  unfold gps_bytes. cbn [latitude longitude groundspeed heading altitude satellites].
  rewrite !ByteOrder.le_bytes_bswap32, !ByteOrder.le_bytes_bswap16.
  rewrite take_ge by (rewrite !length_app, !ByteOrder.be_bytes_length; cbn; lia).
  reflexivity.
Qed.

(** X16: the frame that [CRSF_send_battery_data] writes, for every
    battery struct: length byte 10, type 0x08, voltage and current most
    significant byte first, then the three capacity bytes 0, bits 15..8
    and bits 7..0 of the capacity, then the remaining byte. *)
Theorem X16_battery_frame_layout
    (tbl : list Z) (dest : crsf_dest_t) (b : crsf_battery_t) (log : uart_log) :
  exists after checksum,
    CRSF_send_battery_data tbl dest b log =
    Some (after,
          log ++ [[crsf_dest_code dest; 10; 0x08]
                    ++ (be_bytes 2 (voltage b) ++ be_bytes 2 (current b)
                        ++ [0; (capacity b / 256) mod 256; capacity b mod 256]
                        ++ [remaining b mod 256])
                    ++ [checksum]]).
Proof.
  unfold CRSF_send_battery_data, io_bind.
  rewrite CRSF_send_payload_packet; [|lia|cbn; lia].
  unfold io_ret. eexists. eexists. do 4 f_equal.
  unfold battery_bytes. cbn [voltage current capacity remaining].
  rewrite !ByteOrder.le_bytes_bswap16, BatteryFacts.capacity_field_bytes.
  rewrite take_ge by (rewrite !length_app, !ByteOrder.be_bytes_length; cbn; lia).
  reflexivity.
Qed.

Module SwapTwice.

Lemma bswap16_involutive x : is_uint16 x -> __bswap16 (__bswap16 x) = x.
Proof.
  unfold is_uint16. intros Hx. rewrite (BatteryFacts.bswap16_value (__bswap16 x)).
  rewrite (BatteryFacts.bswap16_value x).
  revert Hx. Z.div_mod_to_equations. lia.
Qed.

Lemma bswap32_involutive x :
  is_int32 x -> to_int32 (__bswap32 (to_int32 (__bswap32 x))) = x.
Proof.
  unfold is_int32. intros Hx.
  pose proof (ByteOrder.le_bytes_bswap32 x) as H.
  unfold be_bytes in H. cbn [le_bytes rev app] in H.
  rewrite !Z.div_div in H by lia.
  change (256 * 256) with 65536 in H. change (65536 * 256) with 16777216 in H.
  change (256 * 65536) with 16777216 in H.
  injection H as E0 E1 E2 E3.
  rewrite (ByteOrder.bswap32_value (to_int32 (__bswap32 x))).
  rewrite E0, E1, E2, E3. unfold to_int32.
  revert Hx. clear. intros Hx. Z.div_mod_to_equations. lia.
Qed.

End SwapTwice.

(** X13: the GPS send works in place, so sending the same struct twice
    undoes the byte swap: after the second call the caller's struct holds
    its original values again, and the payload of the second frame is the
    struct in host byte order (least significant byte first), not in wire
    order. *)
Theorem X13_gps_sent_twice_goes_out_in_host_order
    (tbl : list Z) (dest : crsf_dest_t) (g : crsf_gps_t) (log : uart_log) :
  gps_in_range g ->
  exists g1 p1 p2,
    CRSF_send_gps_data tbl dest g log = Some (g1, log ++ [p1]) /\
    CRSF_send_gps_data tbl dest g1 (log ++ [p1]) = Some (g, (log ++ [p1]) ++ [p2]) /\
    take 15 (drop 3 p2) = gps_bytes g.
Proof.
  intros (Hlat & Hlon & Hgs & Hhd & Halt & Hsat).
  unfold CRSF_send_gps_data, io_bind.
  rewrite CRSF_send_payload_packet; [|lia|cbn; lia].
  unfold io_ret. eexists. eexists. eexists. split; [reflexivity|].
  cbn [latitude longitude groundspeed heading altitude satellites].
  rewrite !SwapTwice.bswap32_involutive, !SwapTwice.bswap16_involutive by assumption.
  rewrite CRSF_send_payload_packet; [|lia|cbn; lia].
  assert (Hg : {| latitude := latitude g; longitude := longitude g;
                  groundspeed := groundspeed g; heading := heading g;
                  altitude := altitude g; satellites := satellites g |} = g)
    by (destruct g; reflexivity).
  rewrite Hg. split; [reflexivity|].
  cbn [app drop]. rewrite drop_0. change (Z.to_nat 15) with 15%nat.
  rewrite (take_ge (gps_bytes g)) by (cbn; lia).
  apply take_app_length'. reflexivity.
Qed.

Lemma X13_gps_sent_twice_goes_out_in_host_order_witness :
  let g := mk_gps 473977000 (-1222000000) 250 9000 1120 11 in
  exists g1 p1 p2,
    CRSF_send_gps_data CRC.crsf_table CRSF_DEST_FC g [] = Some (g1, [] ++ [p1]) /\
    CRSF_send_gps_data CRC.crsf_table CRSF_DEST_FC g1 ([] ++ [p1])
      = Some (g, ([] ++ [p1]) ++ [p2]) /\
    take 15 (drop 3 p2) = gps_bytes g.
Proof.
  intros g.
  apply (X13_gps_sent_twice_goes_out_in_host_order CRC.crsf_table CRSF_DEST_FC g []).
  unfold gps_in_range, is_int32, is_uint16, is_uint8. simpl. lia.
Defined.

Module TempFacts.

Lemma temp_swap_loop_take (n : nat) (vals : list Z) :
  (n <= length vals)%nat ->
  exists out,
    temp_swap_loop n 0 vals = Some out /\
    take n out = (fun v => to_int16 (__bswap16 v)) <$> take n vals.
Proof.
  intros Hn.
  destruct (SendFacts.temp_swap_loop_lookup n 0 vals) as (out & Hout & Hl & Hj); [lia|].
  exists out. split; [assumption|].
  apply list_eq. intros j. rewrite list_lookup_fmap.
  destruct (Nat.ltb_spec j n) as [Hlt|Hge].
  - rewrite !lookup_take_lt by assumption. rewrite Hj.
    cbn [Nat.leb andb Nat.add].
    replace (j <? n)%nat with true by (symmetry; apply Nat.ltb_lt; assumption).
    reflexivity.
  - rewrite !lookup_take_ge by assumption. reflexivity.
Qed.

Lemma take_bind_le_bytes_2 (n : nat) (l : list Z) :
  take (2 * n) (l ≫= le_bytes 2) = take n l ≫= le_bytes 2.
Proof.
  revert n. induction l as [|v l IH]; intros n.
  - change ([] ≫= le_bytes 2) with (@nil Z). rewrite !take_nil. reflexivity.
  - destruct n as [|n]; [reflexivity|].
    replace (2 * S n)%nat with (S (S (2 * n))) by lia.
    cbn [take]. rewrite !bind_cons. cbn [le_bytes app take].
    rewrite IH. reflexivity.
Qed.

Lemma swapped_bytes_big_endian (l : list Z) :
  ((fun v => to_int16 (__bswap16 v)) <$> l) ≫= le_bytes 2 = l ≫= be_bytes 2.
Proof.
  induction l as [|v l IH]; [reflexivity|].
  cbn [fmap list_fmap mbind list_bind].
  rewrite ByteOrder.le_bytes_to_int16, ByteOrder.le_bytes_bswap16.
  f_equal. exact IH.
Qed.

Lemma temp_payload_size (n : Z) :
  0 <= n -> to_uint8 (to_uint32 (1 + to_uint32 (n * 2))) = (1 + 2 * n) mod 256.
Proof.
  intros Hn. unfold to_uint8, to_uint32. Z.div_mod_to_equations. lia.
Qed.

End TempFacts.

(** X14: for up to 126 temperatures (the frame that the length byte can
    still describe), the frame that [CRSF_send_temp_data] writes has
    length byte 2 n + 3, type 0x0D, the source id, and the first n values of
    the caller's array as 16-bit two's complement, most significant byte
    first. *)
Theorem X14_temperature_frame_is_big_endian
    (tbl : list Z) (dest : crsf_dest_t) (t : crsf_temp_t) (num_temps : Z) (log : uart_log) :
  0 <= num_temps <= 126 ->
  num_temps <= Z.of_nat (length (temp_value t)) ->
  exists after checksum,
    CRSF_send_temp_data tbl dest t num_temps log =
    Some (after,
          log ++ [[crsf_dest_code dest; 2 * num_temps + 3; 0x0D]
                    ++ (temp_source_id t mod 256
                        :: (take (Z.to_nat num_temps) (temp_value t) ≫= be_bytes 2))
                    ++ [checksum]]).
Proof.
  intros Hn Hlen. unfold CRSF_send_temp_data.
  destruct (TempFacts.temp_swap_loop_take (Z.to_nat num_temps) (temp_value t))
    as (out & Hout & Htake); [lia|].
  rewrite Hout. unfold io_bind.
  assert (Hsize : to_uint32 (1 + to_uint32 (num_temps * 2)) = 1 + 2 * num_temps).
  { unfold to_uint32. rewrite (Z.mod_small (num_temps * 2)) by lia.
    rewrite Z.mod_small by lia. lia. }
  rewrite Hsize.
  assert (Hout_len : (Z.to_nat num_temps <= length out)%nat).
  { apply (f_equal length) in Htake.
    rewrite length_fmap, !length_take in Htake. lia. }
  rewrite CRSF_send_payload_packet.
  - unfold io_ret. eexists. eexists. do 3 f_equal.
    replace (1 + 2 * num_temps + 2) with (2 * num_temps + 3) by lia.
    do 3 f_equal.
    unfold temp_bytes. cbn [temp_source_id temp_value le_bytes app].
    replace (Z.to_nat (1 + 2 * num_temps)) with (S (2 * Z.to_nat num_temps)) by lia.
    cbn [take]. f_equal.
    rewrite TempFacts.take_bind_le_bytes_2, Htake.
    apply TempFacts.swapped_bytes_big_endian.
  - lia.
  - unfold temp_bytes. cbn [temp_source_id temp_value].
    rewrite length_app, SendFacts.le_bytes_length, SendFacts.temp_values_length. lia.
Qed.

Lemma X14_temperature_frame_is_big_endian_witness :
  exists after checksum,
    CRSF_send_temp_data CRC.crsf_table CRSF_DEST_FC (mk_temp 1 [250; -50; 7]) 2 [] =
    Some (after,
          [] ++ [[crsf_dest_code CRSF_DEST_FC; 2 * 2 + 3; 0x0D]
                   ++ (1 mod 256 :: (take (Z.to_nat 2) [250; -50; 7] ≫= be_bytes 2))
                   ++ [checksum]]).
Proof.
  apply (X14_temperature_frame_is_big_endian CRC.crsf_table CRSF_DEST_FC
           (mk_temp 1 [250; -50; 7]) 2 []).
  - lia.
  - simpl. lia.
Defined.

(** X15: [CRSF_send_temp_data] passes the payload size through a
    [uint8_t]: for any number of temperatures that the caller's array
    holds the call returns, and the frame has (1 + 2 n) mod 256 payload
    bytes, so from 128 temperatures on a frame shorter than the data goes
    out (5 bytes in all for 128 temperatures). *)
Theorem X15_temperature_frame_size_wraps
    (tbl : list Z) (dest : crsf_dest_t) (t : crsf_temp_t) (num_temps : Z) (log : uart_log) :
  0 <= num_temps <= Z.of_nat (length (temp_value t)) ->
  exists after packet,
    CRSF_send_temp_data tbl dest t num_temps log = Some (after, log ++ [packet]) /\
    Z.of_nat (length packet) = (1 + 2 * num_temps) mod 256 + 4.
Proof.
  intros Hn. unfold CRSF_send_temp_data.
  destruct (SendFacts.temp_swap_loop_lookup (Z.to_nat num_temps) 0 (temp_value t))
    as (out & Hout & Hlen & _); [lia|].
  rewrite Hout. unfold io_bind.
  rewrite SendMore.CRSF_send_payload_uint8, TempFacts.temp_payload_size by lia.
  pose proof (Z.mod_pos_bound (1 + 2 * num_temps) 256 ltac:(lia)) as Hm.
  match goal with
  | |- context [CRSF_send_payload tbl ?m dest ?ty ?n log] =>
      destruct (SendMore.CRSF_send_payload_any tbl m dest ty n log) as (c & _ & Hsend)
  end.
  - lia.
  - unfold temp_bytes. cbn [temp_source_id temp_value].
    rewrite length_app, SendFacts.le_bytes_length, SendFacts.temp_values_length, Hlen.
    assert ((1 + 2 * num_temps) mod 256 <= 1 + 2 * num_temps)
      by (apply Z.mod_le; lia).
    lia.
  - rewrite Hsend. unfold io_ret. eexists. eexists. split; [reflexivity|].
    cbn [app length]. rewrite length_app, length_take. cbn [length].
    unfold temp_bytes. cbn [temp_source_id temp_value].
    rewrite length_app, SendFacts.le_bytes_length, SendFacts.temp_values_length, Hlen.
    assert ((1 + 2 * num_temps) mod 256 <= 1 + 2 * num_temps)
      by (apply Z.mod_le; lia).
    lia.
Qed.

Lemma X15_temperature_frame_size_wraps_witness :
  exists after packet,
    CRSF_send_temp_data CRC.crsf_table CRSF_DEST_FC (mk_temp 1 (replicate 128 250)) 128 []
      = Some (after, [] ++ [packet]) /\
    Z.of_nat (length packet) = 5.
Proof.
  apply (X15_temperature_frame_size_wraps CRC.crsf_table CRSF_DEST_FC
           (mk_temp 1 (replicate 128 250)) 128 []).
  simpl. lia.
Defined.

Module RPMMore.

Lemma rpm_pack_bind_be24 (l : list Z) : l ≫= rpm_pack = l ≫= be24.
Proof.
  induction l as [|v l IH]; [reflexivity|].
  rewrite !bind_cons, RPMFacts.rpm_pack_be24, IH. reflexivity.
Qed.

Lemma be24_bind_length (l : list Z) : length (l ≫= be24) = (3 * length l)%nat.
Proof.
  rewrite <- rpm_pack_bind_be24. apply CapFacts.rpm_pack_bytes_length.
Qed.

Lemma wrap_int24_range v : in_int24_range (wrap_int24 v).
Proof.
  unfold in_int24_range, wrap_int24.
  pose proof (Z.mod_pos_bound (v + 8388608) 16777216 ltac:(lia)). lia.
Qed.

Lemma int24_wraps v : int24_to_int32 (int32_to_int24 v) = wrap_int24 v.
Proof.
  rewrite RPMFacts.int32_to_int24_bytes.
  rewrite RPMFacts.int24_to_int32_value by (unfold is_uint8; apply Z.mod_pos_bound; lia).
  cbv zeta. unfold wrap_int24.
  destruct (Z.ltb_spec ((v / 65536) mod 256 * 65536 + (v / 256) mod 256 * 256 + v mod 256)
                       8388608) as [H|H];
    revert H; Z.div_mod_to_equations; lia.
Qed.

Lemma int24_of_int32_of_int24 b0 b1 b2 :
  is_uint8 b0 -> is_uint8 b1 -> is_uint8 b2 ->
  int32_to_int24 (int24_to_int32 {| byte0 := b0; byte1 := b1; byte2 := b2 |})
  = {| byte0 := b0; byte1 := b1; byte2 := b2 |}.
Proof.
  intros H0 H1 H2. rewrite RPMFacts.int24_to_int32_value by assumption. cbv zeta.
  rewrite RPMFacts.int32_to_int24_bytes. unfold is_uint8 in *.
  destruct (Z.ltb_spec (b2 * 65536 + b1 * 256 + b0) 8388608) as [H|H];
    f_equal; revert H; Z.div_mod_to_equations; lia.
Qed.

End RPMMore.

(** X17: with a buffer from [malloc], [CRSF_send_rpm_values] writes one
    frame for any count: k = min(num_values, 19) values, each as its 24-bit
    two's complement most significant byte first, after the source id; the
    length byte is 3 k + 3, the frame has 3 k + 5 bytes and so never more
    than 62. *)
Theorem X17_rpm_frame_layout
    (tbl : list Z) (dest : crsf_dest_t) (source_id : Z) (rpm_values : list Z)
    (num_values : Z) (log : uart_log) :
  0 <= num_values ->
  Z.min num_values 19 <= Z.of_nat (length rpm_values) ->
  let k := Z.min num_values 19 in
  exists checksum packet,
    CRSF_send_rpm_values tbl true dest source_id rpm_values num_values log
      = Some (tt, log ++ [packet]) /\
    packet = [crsf_dest_code dest; 3 * k + 3; 0x0C; source_id mod 256]
               ++ (take (Z.to_nat k) rpm_values ≫= be24) ++ [checksum] /\
    Z.of_nat (length packet) = 3 * k + 5 /\
    Z.of_nat (length packet) <= 62.
Proof.
  intros Hn Hlen k.
  destruct (CapFacts.rpm_send_capped tbl dest source_id rpm_values num_values log Hn Hlen)
    as [checksum Hsend].
  exists checksum. eexists. split; [exact Hsend|].
  fold k. rewrite RPMMore.rpm_pack_bind_be24. split; [reflexivity|].
  assert (Hk : Z.of_nat (length (take (Z.to_nat k) rpm_values)) = k).
  { rewrite length_take. subst k. lia. }
  cbn [app length]. rewrite length_app, RPMMore.be24_bind_length. cbn [length].
  subst k. lia.
Qed.

Lemma X17_rpm_frame_layout_witness :
  exists checksum packet,
    CRSF_send_rpm_values CRC.crsf_table true CRSF_DEST_FC 3 [-1000; 8388607; 5] 2 []
      = Some (tt, [] ++ [packet]) /\
    packet = [crsf_dest_code CRSF_DEST_FC; 3 * Z.min 2 19 + 3; 0x0C; 3 mod 256]
               ++ (take (Z.to_nat (Z.min 2 19)) [-1000; 8388607; 5] ≫= be24)
               ++ [checksum] /\
    Z.of_nat (length packet) = 3 * Z.min 2 19 + 5 /\
    Z.of_nat (length packet) <= 62.
Proof.
  apply (X17_rpm_frame_layout CRC.crsf_table CRSF_DEST_FC 3 [-1000; 8388607; 5] 2 []).
  - lia.
  - simpl. lia.
Defined.

(** X18: the helper pair on every input.  [int32_to_int24] keeps the low
    24 bits: converting back gives the signed value of those bits, which
    is the input exactly on the 24-bit range, and two inputs that differ by
    2^24 give the same RPM triplet.  In the other direction every triplet
    of bytes survives [int24_to_int32] then [int32_to_int24], and its
    value lies in the 24-bit range. *)
Theorem X18_int24_helpers_on_all_inputs (v b0 b1 b2 : Z) :
  is_uint8 b0 -> is_uint8 b1 -> is_uint8 b2 ->
  int24_to_int32 (int32_to_int24 v) = wrap_int24 v /\
  in_int24_range (wrap_int24 v) /\
  rpm_pack (v + 16777216) = rpm_pack v /\
  int32_to_int24 (int24_to_int32 (mk_int24 b0 b1 b2)) = mk_int24 b0 b1 b2 /\
  in_int24_range (int24_to_int32 (mk_int24 b0 b1 b2)).
Proof.
  intros H0 H1 H2. split; [apply RPMMore.int24_wraps|].
  split; [apply RPMMore.wrap_int24_range|].
  split; [|split].
  - rewrite !RPMFacts.rpm_pack_be24. unfold be24.
    f_equal; [|f_equal; [|f_equal]]; clear; Z.div_mod_to_equations; lia.
  - apply RPMMore.int24_of_int32_of_int24; assumption.
  - rewrite <- (RPMMore.int24_of_int32_of_int24 b0 b1 b2 H0 H1 H2) at 1.
    rewrite RPMMore.int24_wraps. apply RPMMore.wrap_int24_range.
Qed.

Lemma X18_int24_helpers_on_all_inputs_witness :
  int24_to_int32 (int32_to_int24 8388608) = wrap_int24 8388608 /\
  in_int24_range (wrap_int24 8388608) /\
  rpm_pack (8388608 + 16777216) = rpm_pack 8388608 /\
  int32_to_int24 (int24_to_int32 (mk_int24 0x18 0xFC 0xFF)) = mk_int24 0x18 0xFC 0xFF /\
  in_int24_range (int24_to_int32 (mk_int24 0x18 0xFC 0xFF)).
Proof.
  apply (X18_int24_helpers_on_all_inputs 8388608 0x18 0xFC 0xFF);
    unfold is_uint8; lia.
Defined.

(** X19: the length byte of [CRSF_send_payload] is a [uint8_t]: with 254
    payload bytes it is 0, with 255 it is 1, and with 255 the checksum loop
    is asked for 256 = 0 bytes, so the checksum byte is 0 whatever the
    payload is. *)
Theorem X19_payload_length_overflow
    (tbl mem : list Z) (dest : crsf_dest_t) (type : crsf_type_t) (log : uart_log) :
  (255 <= length mem)%nat ->
  (exists checksum,
      CRSF_send_payload tbl mem dest type 254 log =
      Some (tt, log ++ [[crsf_dest_code dest; 0; crsf_type_code type]
                          ++ take 254 mem ++ [checksum]])) /\
  CRSF_send_payload tbl mem dest type 255 log =
  Some (tt, log ++ [[crsf_dest_code dest; 1; crsf_type_code type]
                      ++ take 255 mem ++ [0]]).
Proof.
  intros Hlen. split.
  - destruct (SendMore.CRSF_send_payload_any tbl mem dest type 254 log) as (c & _ & Hsend);
      [lia | lia |].
    exists c. exact Hsend.
  - destruct (SendMore.CRSF_send_payload_any tbl mem dest type 255 log) as (c & Hc & Hsend);
      [lia | lia |].
    rewrite Hsend. unfold CRC.crc8 in Hc.
    change (Z.to_nat (to_uint8 (255 + 1))) with 0%nat in Hc.
    cbn [CRC.crc8_loop] in Hc. injection Hc as <-. reflexivity.
Qed.

Lemma X19_payload_length_overflow_witness :
  CRSF_send_payload CRC.crsf_table (replicate 255 0x11) CRSF_DEST_FC CRSF_TYPE_TEMP 255 [] =
  Some (tt, [] ++ [[crsf_dest_code CRSF_DEST_FC; 1; crsf_type_code CRSF_TYPE_TEMP]
                     ++ take 255 (replicate 255 0x11) ++ [0]]).
Proof.
  apply (X19_payload_length_overflow CRC.crsf_table (replicate 255 0x11)
           CRSF_DEST_FC CRSF_TYPE_TEMP []).
  simpl. lia.
Defined.

Module Residue.

Lemma crc8_append_checksum (poly : Z) (data : list Z) :
  is_uint8 poly -> Forall is_uint8 data -> (length data <= 254)%nat ->
  CRC.crc8 (CRC.generate_CRC poly CRC.crc8_table_init)
    (data ++ [CRC.reference_crc8 poly data]) (Z.of_nat (length data) + 1) = Some 0.
Proof.
  intros Hp Hd Hlen.
  pose proof (CRCMore.reference_crc8_range poly data Hp Hd) as Hc.
  replace (Z.of_nat (length data) + 1)
    with (Z.of_nat (length (data ++ [CRC.reference_crc8 poly data])))
    by (rewrite length_app; cbn [length]; lia).
  rewrite <- (app_nil_r (data ++ [CRC.reference_crc8 poly data])) at 1.
  rewrite CRC8Facts.crc8_generated_reference.
  - f_equal. unfold CRC.reference_crc8 at 1. rewrite fold_left_app. cbn [fold_left].
    fold (CRC.reference_crc8 poly data). rewrite Z.lxor_nilpotent. reflexivity.
  - assumption.
  - apply Forall_app. split; [assumption|]. constructor; [assumption | constructor].
  - rewrite length_app. cbn [length]. lia.
Qed.

End Residue.

(** X20: every frame that [CRSF_send_payload] writes with the table of
    [CRSF_init] (payload of bytes, at most 253 of them) checks out: running
    [crc8] over the frame from its type byte to its last byte, checksum
    included, gives 0. *)
Theorem X20_sent_frame_passes_crc_check
    (mem : list Z) (dest : crsf_dest_t) (type : crsf_type_t) (n : Z) (log : uart_log) :
  Forall is_uint8 mem ->
  0 <= n <= 253 -> n <= Z.of_nat (length mem) ->
  exists packet,
    CRSF_send_payload CRC.crsf_table mem dest type n log = Some (tt, log ++ [packet]) /\
    CRC.crc8 CRC.crsf_table (drop 2 packet) (n + 2) = Some 0.
Proof.
  intros Hbytes Hn Hmem. rewrite CRSF_send_payload_packet by assumption.
  eexists. split; [reflexivity|]. cbn [app drop].
  set (payload := take (Z.to_nat n) mem).
  assert (Hpl : Forall is_uint8 (crsf_type_code type :: payload)).
  { constructor; [destruct type; unfold is_uint8; simpl; lia|].
    unfold payload. apply Forall_take. assumption. }
  assert (Hlen : Z.of_nat (length (crsf_type_code type :: payload)) = n + 1).
  { cbn [length]. unfold payload. rewrite length_take. lia. }
  assert (Hcrc : CRC.spec_fold (fun i => CRC.crsf_table !!! Z.to_nat i)
                   (crsf_type_code type :: payload)
                 = CRC.reference_crc8 0xd5 (crsf_type_code type :: payload)).
  { rewrite CRC8Facts.crsf_table_eq. unfold CRC.spec_fold, CRC.reference_crc8.
    apply CRC8Facts.fold_generated_reference;
      [unfold is_uint8; lia | reflexivity | unfold is_uint8; lia | assumption]. }
  rewrite Hcrc. rewrite CRC8Facts.crsf_table_eq.
  replace (n + 2) with (Z.of_nat (length (crsf_type_code type :: payload)) + 1) by lia.
  apply (Residue.crc8_append_checksum 0xd5 (crsf_type_code type :: payload));
    [unfold is_uint8; lia | assumption | lia].
Qed.

Lemma X20_sent_frame_passes_crc_check_witness :
  exists packet,
    CRSF_send_payload CRC.crsf_table [1; 2; 3] CRSF_DEST_FC CRSF_TYPE_GPS 3 []
      = Some (tt, [] ++ [packet]) /\
    CRC.crc8 CRC.crsf_table (drop 2 packet) (3 + 2) = Some 0.
Proof.
  apply (X20_sent_frame_passes_crc_check [1; 2; 3] CRSF_DEST_FC CRSF_TYPE_GPS 3 []).
  - repeat constructor; unfold is_uint8; lia.
  - lia.
  - simpl. lia.
Defined.
